(** * VPA graceful drain controller: configuration, eligibility and drain decision

    A shallow embedding of the Go packages [controller] (config.go,
    pod_controller.go) and [finalizer] (drain handler), with the Kubernetes
    objects they read reduced to the fields the code consumes.

    Conventions:
    - Go [int64] and [time.Duration] values are [Z]; arithmetic that can wrap
      is written with [wrap64].
    - A Go map that may be [nil] is an [option (gmap string V)]; a slice that
      may be [nil] is an [option (list A)].  [None] is the nil value.
    - A Go [(bool, error)] or [(Result, error)] result is a pair with an
      [option error], [None] being the nil error; a result that is a pointer
      and an error, where the code returns either the value or the error, is
      a sum [error + T].
    - Calls on the cluster client and reads of the wall clock go through a
      small state monad over [World], which also records every call made. *)

From Stdlib Require Import ZArith String Ascii List Bool Lia.
From stdpp Require Import base option gmap strings.

Local Open Scope string_scope.
Local Open Scope Z_scope.

(** ** Go basics *)

Definition minInt64 : Z := - 2 ^ 63.
Definition maxInt64 : Z := 2 ^ 63 - 1.
Definition maxUint64 : Z := 2 ^ 64 - 1.

(** Two's complement wrap-around of a 64-bit signed result. *)
Definition wrap64 (z : Z) : Z := (z + 2 ^ 63) mod 2 ^ 64 - 2 ^ 63.

(** A slice header: [None] is the nil slice, [Some []] an allocated slice of
    length zero. *)
Definition slice (A : Type) : Type := option (list A).

Definition elems {A} (s : slice A) : list A :=
  match s with
  | None => []
  | Some l => l
  end.

Definition len {A} (s : slice A) : Z := Z.of_nat (length (elems s)).

(** [m[k]] with the comma-ok form, on a map that may be nil: reading a nil map
    finds nothing. *)
Definition index {V} (m : option (gmap string V)) (k : string) : option V :=
  match m with
  | None => None
  | Some m => m !! k
  end.

(** ** Errors *)

Inductive NumErrKind := ErrSyntax | ErrRange.

Inductive StatusReason := ReasonNotFound | ReasonConflict | ReasonOther (msg : string).

(** An [error] value: what [fmt.Errorf] was called with, a [*strconv.NumError],
    a decoding error of [encoding/json], or an API status error. *)
Inductive error :=
| Errorf (format : string) (args : list fmt_arg)
| NumError (Func Num : string) (Err : NumErrKind)
| JSONError (msg : string)
| StatusError (reason : StatusReason)
with fmt_arg :=
| ArgInt (n : Z)
| ArgError (e : error).

Definition IsNotFound (e : error) : bool :=
  match e with
  | StatusError ReasonNotFound => true
  | _ => false
  end.

Definition IsConflict (e : error) : bool :=
  match e with
  | StatusError ReasonConflict => true
  | _ => false
  end.

(** ** strconv.ParseInt at base 10, bit size 64 *)

Module strconv.

Definition digit (c : ascii) : option Z :=
  let b := Z.of_N (N_of_ascii c) in
  if (48 <=? b) && (b <=? 57) then Some (b - 48) else None.

(** [cutoff] is the smallest [n] such that [n * 10] overflows a uint64. *)
Definition cutoff : Z := maxUint64 / 10 + 1.

(** The digit loop of [ParseUint]: a byte that is no decimal digit is a
    syntax error, an overflow is reported at the byte where it happens. *)
Fixpoint digits (s : string) (n : Z) : NumErrKind + Z :=
  match s with
  | EmptyString => inr n
  | String c s' =>
      match digit c with
      | None => inl ErrSyntax
      | Some d =>
          if cutoff <=? n then inl ErrRange
          else
            let n1 := n * 10 + d in
            if maxUint64 <? n1 then inl ErrRange else digits s' n1
      end
  end.

Definition ParseUint (s : string) : NumErrKind + Z :=
  match s with
  | EmptyString => inl ErrSyntax
  | _ => digits s 0
  end.

Definition ParseInt (s0 : string) : Z * option error :=
  match s0 with
  | EmptyString => (0, Some (NumError "ParseInt" s0 ErrSyntax))
  | String c rest =>
      let '(neg, s) :=
        if Ascii.eqb c "+" then (false, rest)
        else if Ascii.eqb c "-" then (true, rest)
        else (false, s0) in
      let bound := 2 ^ 63 in
      match ParseUint s with
      | inl ErrSyntax => (0, Some (NumError "ParseInt" s0 ErrSyntax))
      | inl ErrRange =>
          (* un = maxVal here, which is past the bound on either side *)
          if neg then (- bound, Some (NumError "ParseInt" s0 ErrRange))
          else (bound - 1, Some (NumError "ParseInt" s0 ErrRange))
      | inr un =>
          if negb neg && (bound <=? un)
          then (bound - 1, Some (NumError "ParseInt" s0 ErrRange))
          else if neg && (bound <? un)
          then (- bound, Some (NumError "ParseInt" s0 ErrRange))
          else (if neg then - un else un, None)
      end
  end.

End strconv.

(** ** Kubernetes objects (k8s.io/api/core/v1), reduced to what is read *)

Module corev1.

(** [resource.Quantity] as the controller observes it: through
    [MilliValue()] and [Value()]. *)
Record Quantity := {
  MilliValue : Z;
  Value : Z
}.

Definition zeroQuantity : Quantity := {| MilliValue := 0; Value := 0 |}.

(** [ResourceList] is a map from resource name to quantity, nil when the
    manifest does not set it. *)
Definition ResourceList : Type := option (gmap string Quantity).

(** [rl.Cpu()] and [rl.Memory()]: the entry, or a zero quantity when the
    list is nil or has no such entry. The pointer returned is never nil. *)
Definition Cpu (rl : ResourceList) : Quantity :=
  match index rl "cpu" with
  | Some q => q
  | None => zeroQuantity
  end.

Definition Memory (rl : ResourceList) : Quantity :=
  match index rl "memory" with
  | Some q => q
  | None => zeroQuantity
  end.

Record ResourceRequirements := {
  Limits : ResourceList;
  Requests : ResourceList
}.

Record ContainerPort := { containerPort : Z }.

Record Container := {
  ContainerName : string;
  Ports : list ContainerPort;
  Resources : ResourceRequirements
}.

Record OwnerReference := {
  OwnerKind : string;
  OwnerName : string
}.

Record ObjectMeta := {
  Name : string;
  Namespace : string;
  Labels : option (gmap string string);
  Annotations : option (gmap string string);
  OwnerReferences : list OwnerReference;
  Finalizers : list string;
  (* nanoseconds on the wall clock; None while the object is alive *)
  DeletionTimestamp : option Z
}.

(** [PodPhase], [PodConditionType] and [ConditionStatus] are string types
    in the API; an unset phase is the empty string. *)
Definition PodPending : string := "Pending".
Definition PodRunning : string := "Running".
Definition PodSucceeded : string := "Succeeded".
Definition PodFailed : string := "Failed".
Definition PodReady : string := "Ready".
Definition ConditionTrue : string := "True".
Definition ConditionFalse : string := "False".

Record PodCondition := {
  CondType : string;
  CondStatus : string
}.

Record PodStatus := {
  Phase : string;
  Conditions : list PodCondition;
  PodIP : string
}.

Record PodSpec := { Containers : list Container }.

Record Pod := {
  PodMeta : ObjectMeta;
  Spec : PodSpec;
  Status : PodStatus
}.

Record ConfigMap := {
  ConfigMapMeta : ObjectMeta;
  Data : option (gmap string string)
}.

Record Service := {
  ServiceMeta : ObjectMeta;
  (* Spec.Selector *)
  ServiceSelector : option (gmap string string)
}.

Record EndpointAddress := { IP : string }.

Record EndpointSubset := { Addresses : list EndpointAddress }.

Record Endpoints := {
  EndpointsMeta : ObjectMeta;
  Subsets : list EndpointSubset
}.

End corev1.

Import corev1.

(** ** k8s.io/apimachinery/pkg/labels *)

Module labels.

(** [labels.Set(sel).AsSelector().Matches(labels.Set(ls))]: every pair of
    the selector set is a label of the object; an empty set selects
    everything. A nil label map is the empty set. *)
Definition Matches (sel : gmap string string) (ls : option (gmap string string)) : bool :=
  forallb (fun kv => match index ls (fst kv) with
                     | Some v => String.eqb v (snd kv)
                     | None => false
                     end)
          (map_to_list sel).

End labels.

(** ** The cluster as seen through [client.Client], and the clock *)

Inductive Kind := KPod | KConfigMap | KEndpoints.

Inductive Call :=
| CallNow
| CallGet (kind : Kind) (namespace name : string)
| CallListServices (namespace : string)
| CallUpdate (pod : Pod).

Record World := {
  (* time.Now() *)
  clock : Z;
  (* objects held by the API server *)
  pods : gmap (string * string) Pod;
  configMaps : gmap (string * string) ConfigMap;
  services : list Service;
  endpoints : gmap (string * string) Endpoints;
  (* a call for which the API server answers with an error *)
  fault : Call -> option error;
  (* every call made so far, oldest first *)
  calls : list Call
}.

Definition M (A : Type) : Type := World -> A * World.

#[global] Instance M_ret : MRet M := fun A (a : A) w => (a, w).

#[global] Instance M_bind : MBind M :=
  fun A B (f : A -> M B) (m : M A) w => let '(a, w') := m w in f a w'.

Definition record (c : Call) (w : World) : World :=
  {| clock := clock w; pods := pods w; configMaps := configMaps w;
     services := services w; endpoints := endpoints w; fault := fault w;
     calls := calls w ++ [c] |}.

Definition store (p : Pod) (w : World) : World :=
  {| clock := clock w;
     pods := <[(Namespace (PodMeta p), Name (PodMeta p)) := p]> (pods w);
     configMaps := configMaps w; services := services w;
     endpoints := endpoints w; fault := fault w; calls := calls w |}.

(** The pod is gone from the API server. *)
Definition remove (p : Pod) (w : World) : World :=
  {| clock := clock w;
     pods := delete (Namespace (PodMeta p), Name (PodMeta p)) (pods w);
     configMaps := configMaps w; services := services w;
     endpoints := endpoints w; fault := fault w; calls := calls w |}.

(** What an accepted Update leaves: the pod as given, unless it is in
    deletion and its finalizer list is now empty, in which case the API
    server completes the deletion and the pod is gone. *)
Definition commit (p : Pod) (w : World) : World :=
  if bool_decide (DeletionTimestamp (PodMeta p) <> None)
     && (Z.of_nat (length (Finalizers (PodMeta p))) =? 0)
  then remove p w
  else store p w.

Definition notFound : error := StatusError ReasonNotFound.

Module client.

Definition Now : M Z := fun w => (clock w, record CallNow w).

(** [Get]: the stored object, a NotFound error when there is none, or the
    error the server answers with. An error leaves the target unset, hence
    the sum. *)
Definition get {A} (kind : Kind) (objs : World -> gmap (string * string) A)
    (namespace name : string) : M (error + A) :=
  fun w =>
    let c := CallGet kind namespace name in
    (match fault w c with
     | Some err => inl err
     | None =>
         match objs w !! (namespace, name) with
         | Some o => inr o
         | None => inl notFound
         end
     end, record c w).

Definition GetPod := get KPod pods.
Definition GetConfigMap := get KConfigMap configMaps.
Definition GetEndpoints := get KEndpoints endpoints.

(** [client.InNamespace(ns)]: the objects of that namespace; the empty
    namespace places no restriction. *)
Definition InNamespace (namespace : string) (items : list Service) : list Service :=
  if String.eqb namespace "" then items
  else filter (fun s => Namespace (ServiceMeta s) = namespace) items.

(** [List(&serviceList, client.InNamespace(ns))] *)
Definition ListServices (namespace : string) : M (error + list Service) :=
  fun w =>
    let c := CallListServices namespace in
    (match fault w c with
     | Some err => inl err
     | None => inr (InNamespace namespace (services w))
     end, record c w).

(** [Update]: replaces the stored pod, or completes its deletion (see
    [commit]); fails when the server answers with an error (a conflict among
    them) or the pod is gone. *)
Definition Update (p : Pod) : M (option error) :=
  fun w =>
    let c := CallUpdate p in
    match fault w c with
    | Some err => (Some err, record c w)
    | None =>
        match pods w !! (Namespace (PodMeta p), Name (PodMeta p)) with
        | Some _ => (None, commit p (record c w))
        | None => (Some notFound, record c w)
        end
    end.

End client.

(** ** Package time *)

Module time.

Definition Second : Z := 1000000000.
Definition Millisecond : Z := 1000000.
Definition Minute : Z := 60 * Second.

(** [t.Sub(u)]: the difference in nanoseconds, saturated to the range of a
    [Duration]. Instants are nanoseconds on the wall clock. *)
Definition Sub (t u : Z) : Z :=
  let d := t - u in
  if d <? minInt64 then minInt64
  else if maxInt64 <? d then maxInt64
  else d.

(** [time.Since(t)] is [time.Now().Sub(t)]. *)
Definition Since (t : Z) : M Z :=
  now ← client.Now; mret (Sub now t).

End time.

(** ** Package finalizer: the drain handler *)

Module finalizer.

(** The [Config] interface. *)
Class Config (C : Type) := {
  GetGracePeriod : C -> Z;
  GetDrainTimeout : C -> Z
}.

Record DrainHandler (C : Type) := NewDrainHandler { config : C }.
Arguments NewDrainHandler {C} _.
Arguments config {C} _.

Section Handler.

Context {C : Type} `{Config C}.
Variable d : DrainHandler C.

Fixpoint isPodReadyIn (conditions : list PodCondition) : bool :=
  match conditions with
  | [] => false
  | condition :: rest =>
      if String.eqb (CondType condition) PodReady
      then String.eqb (CondStatus condition) ConditionTrue
      else isPodReadyIn rest
  end.

Definition isPodReady (pod : Pod) : bool :=
  isPodReadyIn (Conditions (Status pod)).

(** The inner two loops of [checkPodEndpoints]. *)
Definition hasAddress (e : Endpoints) (podIP : string) : bool :=
  existsb (fun subset =>
             existsb (fun address => String.eqb (IP address) podIP)
                     (Addresses subset))
          (Subsets e).

(** The loop over [serviceList.Items]. *)
Fixpoint scanServices (pod : Pod) (podIP : string) (items : list Service)
  : M (bool * option error) :=
  match items with
  | [] => mret (false, None)
  | service :: rest =>
      match ServiceSelector service with
      | None => scanServices pod podIP rest
      | Some selector =>
          if labels.Matches selector (Labels (PodMeta pod)) then
            r ← client.GetEndpoints (Namespace (ServiceMeta service))
                                    (Name (ServiceMeta service));
            match r with
            | inl _ => scanServices pod podIP rest
            | inr e =>
                if hasAddress e podIP then mret (true, None)
                else scanServices pod podIP rest
            end
          else scanServices pod podIP rest
      end
  end.

Definition checkPodEndpoints (pod : Pod) : M (bool * option error) :=
  r ← client.ListServices (Namespace (PodMeta pod));
  match r with
  | inl err => mret (false, Some err)
  | inr items =>
      let podIP := PodIP (Status pod) in
      if String.eqb podIP "" then mret (false, None)
      else scanServices pod podIP items
  end.

Definition checkActiveConnections (pod : Pod) : M (bool * option error) :=
  if negb (String.eqb (Phase (Status pod)) PodRunning) then mret (false, None)
  else if Z.of_nat (length (Containers (Spec pod))) =? 0 then mret (false, None)
  else if negb (existsb (fun container => 0 <? Z.of_nat (length (Ports container)))
                        (Containers (Spec pod)))
  then mret (false, None)
  else if existsb (fun condition =>
                     String.eqb (CondType condition) PodReady
                     && negb (String.eqb (CondStatus condition) ConditionTrue))
                  (Conditions (Status pod))
  then mret (false, None)
  else
    '(hasActiveEndpoints, err) ← checkPodEndpoints pod;
    match err with
    | Some e => mret (true, Some e)
    | None =>
        if negb hasActiveEndpoints then mret (false, None)
        else mret (true, None)
    end.

Definition HandleGracefulDrain (pod : Pod) : M (bool * option error) :=
  match DeletionTimestamp (PodMeta pod) with
  | None => mret (true, None)
  | Some deletionTimestamp =>
      let gracePeriod := GetGracePeriod (config d) in
      let drainTimeout := GetDrainTimeout (config d) in
      timeSinceDeletion ← time.Since deletionTimestamp;
      if timeSinceDeletion <? gracePeriod then mret (false, None)
      else if drainTimeout <? timeSinceDeletion then mret (true, None)
      else if String.eqb (Phase (Status pod)) PodSucceeded
              || String.eqb (Phase (Status pod)) PodFailed
      then mret (true, None)
      else if negb (isPodReady pod) then mret (true, None)
      else
        '(hasActiveConnections, err) ← checkActiveConnections pod;
        match err with
        | Some e => mret (false, Some e)
        | None =>
            if negb hasActiveConnections then mret (true, None)
            else mret (false, None)
        end
  end.

End Handler.

End finalizer.

(** ** Package controller: config.go and pod_controller.go *)

Module controller.

Definition VPAGracefulDrainFinalizer : string :=
  "vpa-graceful-drain.cho.github.io/finalizer".

(** *** config.go *)

Record NamespaceSelector := {
  Include : slice string;
  Exclude : slice string
}.

Record Config := {
  GracePeriodSeconds : Z;
  DrainTimeoutSeconds : Z;
  (* the field NamespaceSelector; nil when no selector is configured *)
  Selector : option NamespaceSelector
}.

(** [for _, x := range l { if x == namespace { return ... } }] *)
Fixpoint rangeFinds (l : list string) (namespace : string) : bool :=
  match l with
  | [] => false
  | x :: l' => if String.eqb x namespace then true else rangeFinds l' namespace
  end.

Definition Matches (ns : option NamespaceSelector) (namespace : string) : bool :=
  match ns with
  | None => true
  | Some ns =>
      if (0 <? len (Exclude ns)) && rangeFinds (elems (Exclude ns)) namespace
      then false
      else if 0 <? len (Include ns)
      then rangeFinds (elems (Include ns)) namespace
      else true
  end.

Definition NewDefaultConfig : Config :=
  {| GracePeriodSeconds := 30;
     DrainTimeoutSeconds := 300;
     Selector := None |}.

Definition GetGracePeriod (c : Config) : Z :=
  wrap64 (GracePeriodSeconds c * time.Second).

Definition GetDrainTimeout (c : Config) : Z :=
  wrap64 (DrainTimeoutSeconds c * time.Second).

#[global] Instance Config_finalizer : finalizer.Config Config :=
  {| finalizer.GetGracePeriod := GetGracePeriod;
     finalizer.GetDrainTimeout := GetDrainTimeout |}.

Section Parse.

(** [json.Unmarshal] into a fresh [NamespaceSelector]; the decoder is the
    standard library's and is not part of this repository. *)
Variable jsonUnmarshal : string -> error + NamespaceSelector.

Definition parseGracePeriod (data : option (gmap string string)) (config : Config)
  : error + Config :=
  match index data "gracePeriodSeconds" with
  | None => inr config
  | Some gracePeriodStr =>
      match strconv.ParseInt gracePeriodStr with
      | (gracePeriod, None) =>
          if gracePeriod <? 0 then
            inl (Errorf "gracePeriodSeconds must be non-negative, got: %d"
                        [ArgInt gracePeriod])
          else if 3600 <? gracePeriod then
            inl (Errorf "gracePeriodSeconds must be less than 3600 (1 hour), got: %d"
                        [ArgInt gracePeriod])
          else
            inr {| GracePeriodSeconds := gracePeriod;
                   DrainTimeoutSeconds := DrainTimeoutSeconds config;
                   Selector := Selector config |}
      | (_, Some err) =>
          inl (Errorf "invalid gracePeriodSeconds: %v" [ArgError err])
      end
  end.

Definition parseDrainTimeout (data : option (gmap string string)) (config : Config)
  : error + Config :=
  match index data "drainTimeoutSeconds" with
  | None => inr config
  | Some drainTimeoutStr =>
      match strconv.ParseInt drainTimeoutStr with
      | (drainTimeout, None) =>
          if drainTimeout <=? 0 then
            inl (Errorf "drainTimeoutSeconds must be positive, got: %d"
                        [ArgInt drainTimeout])
          else if 7200 <? drainTimeout then
            inl (Errorf "drainTimeoutSeconds must be less than 7200 (2 hours), got: %d"
                        [ArgInt drainTimeout])
          else if drainTimeout <? GracePeriodSeconds config then
            inl (Errorf "drainTimeoutSeconds (%d) must be greater than gracePeriodSeconds (%d)"
                        [ArgInt drainTimeout; ArgInt (GracePeriodSeconds config)])
          else
            inr {| GracePeriodSeconds := GracePeriodSeconds config;
                   DrainTimeoutSeconds := drainTimeout;
                   Selector := Selector config |}
      | (_, Some err) =>
          inl (Errorf "invalid drainTimeoutSeconds: %v" [ArgError err])
      end
  end.

Definition parseNamespaceSelector (data : option (gmap string string)) (config : Config)
  : error + Config :=
  match index data "namespaceSelector" with
  | None => inr config
  | Some namespaceSelectorStr =>
      match jsonUnmarshal namespaceSelectorStr with
      | inl err =>
          inl (Errorf "invalid namespaceSelector JSON: %v" [ArgError err])
      | inr namespaceSelector =>
          inr {| GracePeriodSeconds := GracePeriodSeconds config;
                 DrainTimeoutSeconds := DrainTimeoutSeconds config;
                 Selector := Some namespaceSelector |}
      end
  end.

(** The three keys are handled in the order of the source, each step
    working on the configuration the previous one left; the first
    failing key ends the parse with its error. The argument is the
    pointer: [None] is a nil [*ConfigMap]. *)
Definition ParseConfig (configMap : option ConfigMap) : error + Config :=
  match configMap with
  | None => inl (Errorf "configMap cannot be nil" [])
  | Some configMap =>
      let config := NewDefaultConfig in
      match Data configMap with
      | None => inr config
      | Some _ =>
          match parseGracePeriod (Data configMap) config with
          | inl err => inl err
          | inr config =>
              match parseDrainTimeout (Data configMap) config with
              | inl err => inl err
              | inr config => parseNamespaceSelector (Data configMap) config
              end
          end
      end
  end.

End Parse.

(** *** pod_controller.go *)

Record PodReconciler := {
  ConfigMapName : string;
  ConfigMapNamespace : string
}.

(** [ctrl.Result]; the zero value asks for no requeue. *)
Record Result := {
  Requeue : bool;
  RequeueAfter : Z
}.

Definition noRequeue : Result := {| Requeue := false; RequeueAfter := 0 |}.

Definition requeueAfter (d : Z) : Result := {| Requeue := false; RequeueAfter := d |}.

(** controllerutil's helpers on the finalizer list. *)
Definition ContainsFinalizer (pod : Pod) (f : string) : bool :=
  rangeFinds (Finalizers (PodMeta pod)) f.

Definition setFinalizers (pod : Pod) (fs : list string) : Pod :=
  let m := PodMeta pod in
  {| PodMeta := {| Name := Name m; Namespace := Namespace m; Labels := Labels m;
                   Annotations := Annotations m;
                   OwnerReferences := OwnerReferences m;
                   Finalizers := fs;
                   DeletionTimestamp := DeletionTimestamp m |};
     Spec := Spec pod; Status := Status pod |}.

Definition AddFinalizer (pod : Pod) (f : string) : Pod :=
  if ContainsFinalizer pod f then pod
  else setFinalizers pod (Finalizers (PodMeta pod) ++ [f]).

Definition RemoveFinalizer (pod : Pod) (f : string) : Pod :=
  setFinalizers pod
    (List.filter (fun x => negb (String.eqb x f)) (Finalizers (PodMeta pod))).

(** One iteration of the loop over the containers in
    [isPodFromVPAManagedWorkload]: [true] is the early [return true]. Only
    the requests are read; [%] is Go's truncated remainder. *)
Definition looksVPAGenerated (container : Container) : bool :=
  let resources := Resources container in
  if bool_decide (Requests resources <> None) || bool_decide (Limits resources <> None)
  then
    let cpuMillis := MilliValue (Cpu (Requests resources)) in
    if (0 <? cpuMillis) && negb (Z.rem cpuMillis 100 =? 0)
       && negb (Z.rem cpuMillis 50 =? 0)
    then true
    else
      let memoryBytes := Value (Memory (Requests resources)) in
      (0 <? memoryBytes) && negb (Z.rem memoryBytes (1024 * 1024) =? 0)
  else false.

Definition isPodFromVPAManagedWorkload (pod : Pod) : bool :=
  if Z.of_nat (length (OwnerReferences (PodMeta pod))) =? 0 then false
  else existsb looksVPAGenerated (Containers (Spec pod)).

Definition shouldManagePod (pod : Pod) (config : Config) : bool :=
  if bool_decide (Selector config <> None)
     && negb (Matches (Selector config) (Namespace (PodMeta pod)))
  then false
  else
    let annotations := Annotations (PodMeta pod) in
    match index annotations "vpa-managed" with
    | Some vpaManaged => String.eqb vpaManaged "true"
    | None =>
        if bool_decide (index annotations "vpa-updater.client.k8s.io/last-updated" <> None)
        then true
        else if match index annotations "vpa.k8s.io/resource-name" with
                | Some vpaName => negb (String.eqb vpaName "")
                | None => false
                end
        then true
        else if bool_decide (index (Labels (PodMeta pod)) "vpa.k8s.io/managed" <> None)
        then true
        else if isPodFromVPAManagedWorkload pod then true
        else false
    end.

Definition shouldAddFinalizer (pod : Pod) : bool :=
  negb (ContainsFinalizer pod VPAGracefulDrainFinalizer).

Definition handlePodDeletion (pod : Pod) (config : Config)
  : M (Result * option error) :=
  if negb (ContainsFinalizer pod VPAGracefulDrainFinalizer)
  then mret (noRequeue, None)
  else
    let drainHandler := finalizer.NewDrainHandler config in
    '(completed, err) ← finalizer.HandleGracefulDrain drainHandler pod;
    match err with
    | Some e => mret (requeueAfter (time.Second * 30), Some e)
    | None =>
        if negb completed then mret (requeueAfter (time.Second * 10), None)
        else
          let podCopy := RemoveFinalizer pod VPAGracefulDrainFinalizer in
          err ← client.Update podCopy;
          match err with
          | Some e =>
              if IsConflict e then mret (requeueAfter (time.Millisecond * 100), None)
              else mret (noRequeue, Some e)
          | None => mret (noRequeue, None)
          end
    end.

Section Reconciler.

Variable jsonUnmarshal : string -> error + NamespaceSelector.
Variable r : PodReconciler.

Definition getConfig : M (error + Config) :=
  res ← client.GetConfigMap (ConfigMapNamespace r) (ConfigMapName r);
  match res with
  | inl err =>
      if IsNotFound err then mret (inr NewDefaultConfig)
      else mret (inl err)
  | inr configMap => mret (ParseConfig jsonUnmarshal (Some configMap))
  end.

Definition Reconcile (namespace name : string) : M (Result * option error) :=
  res ← client.GetPod namespace name;
  match res with
  | inl err =>
      if IsNotFound err then mret (noRequeue, None)
      else mret (noRequeue, Some err)
  | inr pod =>
      cfg ← getConfig;
      match cfg with
      | inl err => mret (requeueAfter (time.Minute * 5), Some err)
      | inr config =>
          if negb (shouldManagePod pod config) then mret (noRequeue, None)
          else if bool_decide (DeletionTimestamp (PodMeta pod) <> None)
          then handlePodDeletion pod config
          else if shouldAddFinalizer pod then
            let podCopy := AddFinalizer pod VPAGracefulDrainFinalizer in
            err ← client.Update podCopy;
            match err with
            | Some e =>
                if IsConflict e then mret (requeueAfter (time.Millisecond * 100), None)
                else mret (noRequeue, Some e)
            | None => mret (noRequeue, None)
            end
          else mret (noRequeue, None)
      end
  end.

End Reconciler.

(** What reaches an event filter: any [client.Object]. *)
Inductive Object :=
| PodObject (pod : Pod)
| ConfigMapObject (configMap : ConfigMap)
| ServiceObject (service : Service)
| EndpointsObject (e : Endpoints).

(** The function given to [predicate.NewPredicateFuncs] in
    [SetupWithManager]: the type assertion fails on anything but a pod. *)
Definition podEventFilter (object : Object) : bool :=
  match object with
  | PodObject pod =>
      let annotations := Annotations (PodMeta pod) in
      if match index annotations "vpa-managed" with
         | Some vpaManaged => String.eqb vpaManaged "true"
         | None => false
         end
      then true
      else if bool_decide (index annotations "vpa-updater.client.k8s.io/last-updated" <> None)
      then true
      else match index annotations "vpa.k8s.io/resource-name" with
           | Some vpaName => negb (String.eqb vpaName "")
           | None => false
           end
  | _ => false
  end.

End controller.

Import controller.

(** * Sample objects, after the repository's tests *)

Module samples.

Definition meta (namespace name : string) : ObjectMeta :=
  {| Name := name; Namespace := namespace; Labels := None; Annotations := None;
     OwnerReferences := []; Finalizers := []; DeletionTimestamp := None |}.

Definition configMap (data : gmap string string) : ConfigMap :=
  {| ConfigMapMeta := meta "test-namespace" "test-config"; Data := Some data |}.

(** A selector that names kube-system on both lists. *)
Definition bothLists : NamespaceSelector :=
  {| Include := Some ["default"; "production"; "kube-system"];
     Exclude := Some ["kube-system"; "kube-public"] |}.

(** What decoding [{"include": []}] leaves: an allocated, empty include
    slice and no exclude slice. *)
Definition emptyInclude : NamespaceSelector :=
  {| Include := Some []; Exclude := None |}.

Definition noResources : ResourceRequirements :=
  {| Limits := None; Requests := None |}.

End samples.

(** A world with nothing in it in which no call fails, and a JSON decoder
    that rejects every input; they serve where the objects and the decoder
    play no part. *)
Definition emptyWorld (now : Z) : World :=
  {| clock := now; pods := ∅; configMaps := ∅; services := []; endpoints := ∅;
     fault := fun _ => None; calls := [] |}.

Definition noDecoder (s : string) : error + NamespaceSelector :=
  inl (JSONError "unexpected input").

Module annotated.

(** The pod of the test "should prioritize vpa-managed annotation over
    legacy annotations", with the managed label added. *)
Definition pod : Pod :=
  {| PodMeta :=
       {| Name := "test-pod"; Namespace := "default";
          Labels := Some {[ "vpa.k8s.io/managed" := "true" ]};
          Annotations :=
            Some {[ "vpa-managed" := "false";
                    "vpa-updater.client.k8s.io/last-updated" := "2023-01-01T00:00:00Z";
                    "vpa.k8s.io/resource-name" := "my-vpa" ]};
          OwnerReferences := []; Finalizers := []; DeletionTimestamp := None |};
     Spec := {| Containers := [] |};
     Status := {| Phase := PodRunning; Conditions := []; PodIP := "" |} |}.

End annotated.

Module limitsOnly.

(** An owned pod whose single container sets no requests and a CPU limit
    of 25m, with no annotation and no label. *)
Definition container : Container :=
  {| ContainerName := "test-container"; Ports := [];
     Resources :=
       {| Limits := Some {[ "cpu" := {| MilliValue := 25; Value := 1 |} ]};
          Requests := None |} |}.

Definition pod : Pod :=
  {| PodMeta :=
       {| Name := "test-pod"; Namespace := "default"; Labels := None;
          Annotations := None;
          OwnerReferences := [ {| OwnerKind := "ReplicaSet"; OwnerName := "test-rs" |} ];
          Finalizers := []; DeletionTimestamp := None |};
     Spec := {| Containers := [container] |};
     Status := {| Phase := PodRunning; Conditions := []; PodIP := "" |} |}.

End limitsOnly.

Module drain.

(** A serving pod: Running, Ready, one container with a port, an address,
    the label app=test, deleted at instant 0 and held by the finalizer. *)
Definition pod : Pod :=
  {| PodMeta :=
       {| Name := "test-pod"; Namespace := "default";
          Labels := Some {[ "app" := "test" ]};
          Annotations := Some {[ "vpa-managed" := "true" ]};
          OwnerReferences := [];
          Finalizers := [VPAGracefulDrainFinalizer];
          DeletionTimestamp := Some 0 |};
     Spec :=
       {| Containers :=
            [ {| ContainerName := "test-container";
                 Ports := [ {| containerPort := 8080 |} ];
                 Resources := samples.noResources |} ] |};
     Status :=
       {| Phase := PodRunning;
          Conditions := [ {| CondType := PodReady; CondStatus := ConditionTrue |} ];
          PodIP := "10.0.0.1" |} |}.

Definition service : Service :=
  {| ServiceMeta := samples.meta "default" "test-service";
     ServiceSelector := Some {[ "app" := "test" ]} |}.

Definition serviceEndpoints : Endpoints :=
  {| EndpointsMeta := samples.meta "default" "test-service";
     Subsets := [ {| Addresses := [ {| IP := "10.0.0.1" |} ] |} ] |}.

(** The cluster of the test "should wait when pod has active connections",
    at [now] nanoseconds after the deletion, with the calls in [faulty]
    failing. *)
Definition world (now : Z) (faulty : Call -> option error) : World :=
  {| clock := now;
     pods := {[ ("default", "test-pod") := pod ]};
     configMaps := ∅;
     services := [service];
     endpoints := {[ ("default", "test-service") := serviceEndpoints ]};
     fault := faulty;
     calls := [] |}.

Definition healthy : Call -> option error := fun _ => None.

(** The same cluster before the endpoints of the service exist. *)
Definition withoutEndpoints (now : Z) : World :=
  {| clock := now;
     pods := {[ ("default", "test-pod") := pod ]};
     configMaps := ∅;
     services := [service];
     endpoints := ∅;
     fault := healthy;
     calls := [] |}.

Definition timeout : error := StatusError (ReasonOther "context deadline exceeded").

Definition endpointsUnreadable (c : Call) : option error :=
  match c with
  | CallGet KEndpoints _ _ => Some timeout
  | _ => None
  end.

Definition servicesUnlistable (c : Call) : option error :=
  match c with
  | CallListServices _ => Some timeout
  | _ => None
  end.

(** What ParseConfig returns for gracePeriodSeconds = "500" alone. *)
Definition graceAboveTimeout : Config :=
  {| GracePeriodSeconds := 500; DrainTimeoutSeconds := 300; Selector := None |}.

End drain.

Module unguarded.

(** The pod of the test "when pod does not have finalizer", which another
    controller's finalizer keeps in deletion. *)
Definition pod : Pod :=
  {| PodMeta :=
       {| Name := "test-pod"; Namespace := "default"; Labels := None;
          Annotations := Some {[ "vpa-managed" := "true" ]};
          OwnerReferences := [];
          Finalizers := ["example.com/other-finalizer"];
          DeletionTimestamp := Some 0 |};
     Spec := {| Containers := [] |};
     Status := {| Phase := PodRunning; Conditions := []; PodIP := "" |} |}.

End unguarded.

(** The pods on which checkActiveConnections gets as far as the endpoint
    check: Running, with a container, some container with a port, and no
    Ready condition whose status is other than True. *)
Definition reachesEndpointCheck (pod : Pod) : Prop :=
  Phase (Status pod) = PodRunning /\
  Containers (Spec pod) <> [] /\
  (exists container, In container (Containers (Spec pod)) /\ Ports container <> []) /\
  (forall condition, In condition (Conditions (Status pod)) ->
                     CondType condition = PodReady ->
                     CondStatus condition = ConditionTrue).

Module live.

(** A managed pod that is alive and bears another controller's finalizer,
    in a cluster without ConfigMap in which no call fails. *)
Definition pod : Pod :=
  {| PodMeta :=
       {| Name := "test-pod"; Namespace := "default"; Labels := None;
          Annotations := Some {[ "vpa-managed" := "true" ]};
          OwnerReferences := [];
          Finalizers := ["example.com/other-finalizer"];
          DeletionTimestamp := None |};
     Spec := {| Containers := [] |};
     Status := {| Phase := PodRunning; Conditions := []; PodIP := "10.0.0.2" |} |}.

Definition world : World :=
  {| clock := 0;
     pods := {[ ("default", "test-pod") := pod ]};
     configMaps := ∅; services := []; endpoints := ∅;
     fault := fun _ => None; calls := [] |}.

(** The same cluster answering every Update with a conflict. *)
Definition contended : World :=
  {| clock := 0;
     pods := {[ ("default", "test-pod") := pod ]};
     configMaps := ∅; services := []; endpoints := ∅;
     fault := fun c => match c with
                       | CallUpdate _ => Some (StatusError ReasonConflict)
                       | _ => None
                       end;
     calls := [] |}.

Definition reconciler : PodReconciler :=
  {| ConfigMapName := "vpa-graceful-drain-config"; ConfigMapNamespace := "kube-system" |}.

End live.

Module shared.

(** The serving pod when another controller holds it as well. *)
Definition pod : Pod :=
  setFinalizers drain.pod ["example.com/other-finalizer"; VPAGracefulDrainFinalizer].

Definition world (now : Z) : World :=
  {| clock := now;
     pods := {[ ("default", "test-pod") := pod ]};
     configMaps := ∅;
     services := [drain.service];
     endpoints := {[ ("default", "test-service") := drain.serviceEndpoints ]};
     fault := drain.healthy;
     calls := [] |}.

End shared.

Module unscoped.

(** The serving pod with an empty namespace, beside a service of another
    namespace that selects it and lists its address. *)
Definition pod : Pod :=
  {| PodMeta :=
       {| Name := "test-pod"; Namespace := "";
          Labels := Some {[ "app" := "test" ]};
          Annotations := Some {[ "vpa-managed" := "true" ]};
          OwnerReferences := [];
          Finalizers := [VPAGracefulDrainFinalizer];
          DeletionTimestamp := Some 0 |};
     Spec := Spec drain.pod;
     Status := Status drain.pod |}.

Definition world (now : Z) : World :=
  {| clock := now;
     pods := {[ ("", "test-pod") := pod ]};
     configMaps := ∅;
     services := [drain.service];
     endpoints := {[ ("default", "test-service") := drain.serviceEndpoints ]};
     fault := drain.healthy;
     calls := [] |}.

End unscoped.

(** An API server that answers every Update with a conflict. *)
Definition conflictOnUpdate (c : Call) : option error :=
  match c with
  | CallUpdate _ => Some (StatusError ReasonConflict)
  | _ => None
  end.

(** A ConfigMap the validator rejects, in the cluster of the live pod. *)
Definition invalidConfigWorld : World :=
  {| clock := 0;
     pods := {[ ("default", "test-pod") := live.pod ]};
     configMaps :=
       {[ ("kube-system", "vpa-graceful-drain-config") :=
            {| ConfigMapMeta := samples.meta "kube-system" "vpa-graceful-drain-config";
               Data := Some {[ "gracePeriodSeconds" := "invalid" ]} |} ]};
     services := []; endpoints := ∅;
     fault := fun _ => None; calls := [] |}.

(** A pod that carries no signal at all, alone in its cluster. *)
Definition plainPod : Pod :=
  {| PodMeta := samples.meta "default" "plain";
     Spec := {| Containers := [] |};
     Status := {| Phase := PodRunning; Conditions := []; PodIP := "10.0.0.3" |} |}.

Definition plainWorld : World :=
  {| clock := 0;
     pods := {[ ("default", "plain") := plainPod ]};
     configMaps := ∅; services := []; endpoints := ∅;
     fault := fun _ => None; calls := [] |}.

(** The cluster of the pod that is in deletion without the guard marker. *)
Definition unguardedWorld : World :=
  {| clock := 60 * time.Second;
     pods := {[ ("default", "test-pod") := unguarded.pod ]};
     configMaps := ∅; services := []; endpoints := ∅;
     fault := fun _ => None; calls := [] |}.

(** The world after the calls [l] have been logged and nothing else has
    changed: what a computation that only reads leaves behind. *)
Definition withCalls (l : list Call) (w : World) : World :=
  {| clock := clock w; pods := pods w; configMaps := configMaps w;
     services := services w; endpoints := endpoints w; fault := fault w;
     calls := calls w ++ l |}.

(** The same cluster with another list of services. *)
Definition withServices (items : list Service) (w : World) : World :=
  {| clock := clock w; pods := pods w; configMaps := configMaps w;
     services := items; endpoints := endpoints w; fault := fault w;
     calls := calls w |}.

(** The calls that read; [Update] is the one call that writes. *)
Definition isRead (c : Call) : bool :=
  match c with
  | CallUpdate _ => false
  | _ => true
  end.

(** [w'] is [w] after some reading calls. *)
Definition reads (w w' : World) : Prop :=
  exists l, w' = withCalls l w /\ Forall (fun c => isRead c = true) l.

(** What a reconcile of the pod [(namespace, name)] may do to the world
    besides logging calls: nothing, or replace the finalizer list of that
    pod, or, when the pod is in deletion and bears no finalizer but the
    guard marker, let its deletion complete. *)
Definition finalizersStep (namespace name : string) (w w' : World) : Prop :=
  clock w' = clock w /\ configMaps w' = configMaps w /\ services w' = services w /\
  endpoints w' = endpoints w /\ fault w' = fault w /\
  (pods w' = pods w \/
   exists pod,
     pods w !! (namespace, name) = Some pod /\
     ((exists fs, pods w' = <[(namespace, name) := setFinalizers pod fs]> (pods w)) \/
      (DeletionTimestamp (PodMeta pod) <> None /\
       (forall g, In g (Finalizers (PodMeta pod)) -> g = VPAGracefulDrainFinalizer) /\
       pods w' = delete (namespace, name) (pods w)))).

(** The pod stored under a key carries that key as its namespace and name,
    as on the API server. *)
Definition wellKeyed (w : World) : Prop :=
  forall namespace name pod,
    pods w !! (namespace, name) = Some pod ->
    Namespace (PodMeta pod) = namespace /\ Name (PodMeta pod) = name.

(** The services whose endpoints the probe can read and finds the address
    in: selected by the pod's labels, endpoints readable and stored, address
    listed. *)
Definition targets (w : World) (pod : Pod) (service : Service) : Prop :=
  exists selector e,
    ServiceSelector service = Some selector /\
    labels.Matches selector (Labels (PodMeta pod)) = true /\
    fault w (CallGet KEndpoints (Namespace (ServiceMeta service))
               (Name (ServiceMeta service))) = None /\
    endpoints w !! (Namespace (ServiceMeta service), Name (ServiceMeta service)) = Some e /\
    finalizer.hasAddress e (PodIP (Status pod)) = true.

Ltac run := unfold mbind, M_bind, mret, M_ret; simpl.

(** * Properties *)

(** ** The tests of config_test.go that the code passes *)

Example ParseInt_60 : strconv.ParseInt "60" = (60, None).
Proof. reflexivity. Qed.

Example ParseInt_negative : strconv.ParseInt "-10" = (-10, None).
Proof. reflexivity. Qed.

Example ParseInt_invalid :
  strconv.ParseInt "invalid" = (0, Some (NumError "ParseInt" "invalid" ErrSyntax)).
Proof. reflexivity. Qed.

Example ParseInt_out_of_range :
  strconv.ParseInt "9223372036854775808"
  = (9223372036854775807, Some (NumError "ParseInt" "9223372036854775808" ErrRange)).
Proof. reflexivity. Qed.

Example ParseConfig_empty u :
  ParseConfig u (Some (samples.configMap ∅)) = inr NewDefaultConfig.
Proof. reflexivity. Qed.

Example ParseConfig_both u :
  ParseConfig u (Some (samples.configMap
    {[ "gracePeriodSeconds" := "45"; "drainTimeoutSeconds" := "900" ]}))
  = inr {| GracePeriodSeconds := 45; DrainTimeoutSeconds := 900; Selector := None |}.
Proof. reflexivity. Qed.

Example ParseConfig_timeout_below_grace u :
  ParseConfig u (Some (samples.configMap
    {[ "gracePeriodSeconds" := "60"; "drainTimeoutSeconds" := "30" ]}))
  = inl (Errorf "drainTimeoutSeconds (%d) must be greater than gracePeriodSeconds (%d)"
                [ArgInt 30; ArgInt 60]).
Proof. reflexivity. Qed.

Example Matches_only_exclude :
  let ns := Some {| Include := None; Exclude := Some ["kube-system"; "kube-public"] |} in
  Matches ns "default" = true /\ Matches ns "kube-system" = false.
Proof. split; reflexivity. Qed.

(** ** Helper lemmas *)

Lemma rangeFinds_In l x : rangeFinds l x = true <-> In x l.
Proof.
  induction l as [|y l IH]; simpl.
  - split; [discriminate | tauto].
  - destruct (String.eqb_spec y x) as [->|Hne].
    + tauto.
    + rewrite IH. split; [tauto | intros [H|H]; [congruence | exact H]].
Qed.

Lemma rangeFinds_not_In l x : rangeFinds l x = false <-> ~ In x l.
Proof.
  rewrite <- rangeFinds_In. destruct (rangeFinds l x); split; congruence.
Qed.

Lemma len_pos_nonempty {A} (s : slice A) : (0 <? len s) = true <-> elems s <> [].
Proof.
  unfold len. destruct (elems s) as [|a l]; simpl; split.
  - discriminate.
  - intros H. now contradiction H.
  - discriminate.
  - reflexivity.
Qed.

(** X5. What [Matches] computes for a selector: excluded names never match;
    otherwise a nonempty include list decides, and without one everything
    matches. *)
Lemma Matches_spec ns namespace :
  Matches (Some ns) namespace = true <->
  ~ In namespace (elems (Exclude ns)) /\
  (elems (Include ns) = [] \/ In namespace (elems (Include ns))).
Proof.
  unfold Matches.
  destruct (rangeFinds (elems (Exclude ns)) namespace) eqn:Hex.
  - apply rangeFinds_In in Hex as Hin.
    assert ((0 <? len (Exclude ns)) = true) as ->.
    { apply len_pos_nonempty. intros E. rewrite E in Hin. exact Hin. }
    simpl. split; [discriminate | tauto].
  - apply rangeFinds_not_In in Hex. rewrite andb_false_r.
    destruct (0 <? len (Include ns)) eqn:Hinc.
    + apply len_pos_nonempty in Hinc. rewrite rangeFinds_In. tauto.
    + assert (elems (Include ns) = []) as E.
      { destruct (elems (Include ns)) eqn:El; [reflexivity|].
        exfalso. assert ((0 <? len (Include ns)) = true) as Hp
          by (apply len_pos_nonempty; congruence). congruence. }
      tauto.
Qed.

(** ** ConfigValidator *)

(** X1. A successful parse keeps the timeout at or above the grace period except
    in one case: the timeout key is absent and the grace period, alone, was
    set above the default timeout of 300. *)
Lemma ParseConfig_ordering u (cm : ConfigMap) (cfg : Config) :
  ParseConfig u (Some cm) = inr cfg ->
  GracePeriodSeconds cfg <= DrainTimeoutSeconds cfg \/
  (index (Data cm) "drainTimeoutSeconds" = None /\
   DrainTimeoutSeconds cfg = 300 /\ 300 < GracePeriodSeconds cfg <= 3600).
Proof.
  unfold ParseConfig.
  destruct (Data cm) as [data|] eqn:Hdata.
  2:{ intros [= <-]. left. simpl. lia. }
  destruct (parseGracePeriod (Some data) NewDefaultConfig) as [e|c1] eqn:H1; [discriminate|].
  destruct (parseDrainTimeout (Some data) c1) as [e|c2] eqn:H2; [discriminate|].
  intros H3.
  assert (GracePeriodSeconds cfg = GracePeriodSeconds c2 /\
          DrainTimeoutSeconds cfg = DrainTimeoutSeconds c2) as [-> ->].
  { unfold parseNamespaceSelector in H3.
    destruct (index (Some data) "namespaceSelector") as [js|].
    - destruct (u js); [discriminate|]. inversion H3; subst; simpl; tauto.
    - inversion H3; subst; tauto. }
  assert (DrainTimeoutSeconds c1 = 300 /\ 0 <= GracePeriodSeconds c1 <= 3600) as [Hd1 Hg1].
  { unfold parseGracePeriod in H1.
    destruct (index (Some data) "gracePeriodSeconds") as [gs|].
    - destruct (strconv.ParseInt gs) as [g [e|]]; [discriminate|].
      destruct (Z.ltb_spec g 0); [discriminate|].
      destruct (Z.ltb_spec 3600 g); [discriminate|].
      inversion H1; subst; simpl; lia.
    - inversion H1; subst; simpl; lia. }
  unfold parseDrainTimeout in H2.
  destruct (index (Some data) "drainTimeoutSeconds") as [ds|] eqn:Hk.
  - destruct (strconv.ParseInt ds) as [t [e|]]; [discriminate|].
    destruct (Z.leb_spec t 0); [discriminate|].
    destruct (Z.ltb_spec 7200 t); [discriminate|].
    destruct (Z.ltb_spec t (GracePeriodSeconds c1)); [discriminate|].
    inversion H2; subst; simpl. left. lia.
  - assert (c2 = c1) as -> by congruence.
    destruct (Z.le_gt_cases (GracePeriodSeconds c1) 300); [left; lia|].
    right. split; [reflexivity | lia].
Qed.

(** C1 (code defect). The specification says: every configuration ParseConfig returns has
    drainTimeout >= gracePeriod, and a ConfigMap that sets only
    gracePeriodSeconds above 300 is rejected. On the ConfigMap whose data is
    gracePeriodSeconds = "500", ParseConfig succeeds, with any JSON decoder,
    and returns grace period 500 with drain timeout 300: the comparison with
    the grace period sits inside the branch of the drainTimeoutSeconds key
    and does not run when that key is absent. *)
Theorem C1_grace_only_above_default_timeout_accepted :
  forall u,
    ParseConfig u (Some (samples.configMap {[ "gracePeriodSeconds" := "500" ]}))
    = inr {| GracePeriodSeconds := 500; DrainTimeoutSeconds := 300; Selector := None |}
    /\ DrainTimeoutSeconds {| GracePeriodSeconds := 500; DrainTimeoutSeconds := 300;
                              Selector := None |} < 500.
Proof. intros u. split; [reflexivity | simpl; lia]. Qed.

(** C10. ParseConfig on a nil ConfigMap pointer returns the error
    "configMap cannot be nil" and no configuration; getConfig answers a
    not-found read of the ConfigMap with NewDefaultConfig and no error. *)
Theorem C10_nil_configmap_is_error_absent_configmap_is_default :
  forall u,
    ParseConfig u None = inl (Errorf "configMap cannot be nil" []) /\
    (forall r w err,
        fst (client.GetConfigMap (ConfigMapNamespace r) (ConfigMapName r) w) = inl err ->
        IsNotFound err = true ->
        fst (getConfig u r w) = inr NewDefaultConfig).
Proof.
  intros u. split; [reflexivity|].
  intros r w err Hget Hnf. unfold getConfig, mbind, M_bind.
  destruct (client.GetConfigMap (ConfigMapNamespace r) (ConfigMapName r) w) as [res w'].
  simpl in Hget. subst res. rewrite Hnf. reflexivity.
Qed.

(** ** NamespaceFilter *)

(** C4 (code defect). The specification says: with a nonempty include list, Matches is
    true exactly on the included names, also for a name that is excluded as
    well. The code walks the exclude list first, so for the selector of the
    repository's test "should prioritize include over exclude" the namespace
    kube-system, which is on both lists, does not match. *)
Theorem C4_exclude_checked_before_include :
  In "kube-system" (elems (Include samples.bothLists)) /\
  Matches (Some samples.bothLists) "kube-system" = false.
Proof. split; [simpl; tauto | reflexivity]. Qed.

(** C5 (code defect). The specification says: an include list that is present with length
    zero matches nothing. The code tests [len(ns.Include) > 0], which an
    empty slice fails like a nil one, and falls through to [return true]:
    the selector decoded from an empty include array matches "default". *)
Theorem C5_empty_include_matches :
  Include samples.emptyInclude = Some [] /\
  Matches (Some samples.emptyInclude) "default" = true.
Proof. split; reflexivity. Qed.

Lemma C10_witness :
  fst (getConfig noDecoder
         {| ConfigMapName := "vpa-graceful-drain-config"; ConfigMapNamespace := "kube-system" |}
         (emptyWorld 0))
  = inr NewDefaultConfig.
Proof.
  apply (proj2 (C10_nil_configmap_is_error_absent_configmap_is_default noDecoder)
           _ _ notFound); reflexivity.
Defined.

(** ** EligibilityClassifier *)

(** C6. When the annotation map has the key "vpa-managed" and the
    configuration's selector admits the pod's namespace, shouldManagePod is
    true exactly when the value is the string "true"; nothing else on the
    pod (legacy annotations, the managed label, owner references, resources)
    is looked at. *)
Theorem C6_explicit_annotation_decides (pod : Pod) (config : Config) (v : string) :
  index (Annotations (PodMeta pod)) "vpa-managed" = Some v ->
  Matches (Selector config) (Namespace (PodMeta pod)) = true ->
  (shouldManagePod pod config = true <-> v = "true").
Proof.
  intros Hann Hns. unfold shouldManagePod.
  rewrite Hns, andb_false_r, Hann.
  destruct (String.eqb_spec v "true"); split; congruence.
Qed.

Lemma C6_witness : shouldManagePod annotated.pod NewDefaultConfig = true <-> "false" = "true".
Proof.
  apply (C6_explicit_annotation_decides annotated.pod NewDefaultConfig "false"); reflexivity.
Defined.

Example C6_legacy_signals_overridden : shouldManagePod annotated.pod NewDefaultConfig = false.
Proof. reflexivity. Qed.

(** What one container contributes to the heuristic: it must set requests or
    limits, and the value that is tested is the CPU or memory request. *)
Lemma looksVPAGenerated_spec (c : Container) :
  looksVPAGenerated c = true <->
  (Requests (Resources c) <> None \/ Limits (Resources c) <> None) /\
  let cpuMillis := MilliValue (Cpu (Requests (Resources c))) in
  let memoryBytes := Value (Memory (Requests (Resources c))) in
  (0 < cpuMillis /\ Z.rem cpuMillis 100 <> 0 /\ Z.rem cpuMillis 50 <> 0) \/
  (0 < memoryBytes /\ Z.rem memoryBytes (1024 * 1024) <> 0).
Proof.
  unfold looksVPAGenerated. cbv zeta.
  set (cpu := MilliValue _). set (mem := Value _).
  destruct (bool_decide_reflect (Requests (Resources c) <> None)) as [Hr|Hr];
    destruct (bool_decide_reflect (Limits (Resources c) <> None)) as [Hl|Hl]; simpl;
    destruct (Z.ltb_spec 0 cpu); destruct (Z.eqb_spec (Z.rem cpu 100) 0);
    destruct (Z.eqb_spec (Z.rem cpu 50) 0); simpl;
    destruct (Z.ltb_spec 0 mem); destruct (Z.eqb_spec (Z.rem mem (1024 * 1024)) 0);
    simpl; split; try tauto; try discriminate; intros [_ [?|?]]; lia.
Qed.

(** C7 (code defect). The specification says: an owned pod with no other signal is managed
    exactly when some container has a non-round CPU or memory request or
    limit, in particular when the only non-round value is a limit. The loop
    enters a container that sets limits but then reads the requests only: a
    pod whose container has a CPU limit of 25m (not a multiple of 50) and no
    requests is not classified as managed. *)
Theorem C7_non_round_limit_is_not_seen :
  OwnerReferences (PodMeta limitsOnly.pod) <> [] /\
  MilliValue (Cpu (Limits (Resources limitsOnly.container))) = 25 /\
  Z.rem 25 50 <> 0 /\
  isPodFromVPAManagedWorkload limitsOnly.pod = false /\
  shouldManagePod limitsOnly.pod NewDefaultConfig = false.
Proof. repeat split; try reflexivity; discriminate. Qed.

(** ** Running the handlers *)

Lemma record_calls c w : calls (record c w) = (calls w ++ [c])%list.
Proof. reflexivity. Qed.

Lemma record_fault c w : fault (record c w) = fault w.
Proof. reflexivity. Qed.

(** The probe only reads: whatever it does, the call log grows or stays. *)
Lemma scanServices_calls pod podIP items :
  forall w,
    (length (calls w) <= length (calls (snd (finalizer.scanServices pod podIP items w))))%nat.
Proof.
  induction items as [|service rest IH]; intros w; simpl.
  - run. lia.
  - destruct (ServiceSelector service) as [selector|]; [|apply IH].
    destruct (labels.Matches selector (Labels (PodMeta pod))); [|apply IH].
    run. unfold client.GetEndpoints, client.get.
    set (w1 := record _ w).
    assert (length (calls w) <= length (calls w1))%nat as Hw1.
    { unfold w1. rewrite record_calls, length_app. simpl. lia. }
    destruct (fault w _).
    + specialize (IH w1). lia.
    + destruct (endpoints w !! _) as [e|].
      * destruct (finalizer.hasAddress e podIP); [exact Hw1|].
        specialize (IH w1). lia.
      * specialize (IH w1). lia.
Qed.

Lemma checkPodEndpoints_calls pod w :
  (length (calls w) <= length (calls (snd (finalizer.checkPodEndpoints pod w))))%nat.
Proof.
  unfold finalizer.checkPodEndpoints. run. unfold client.ListServices.
  set (w1 := record _ w).
  assert (length (calls w) <= length (calls w1))%nat as Hw1.
  { unfold w1. rewrite record_calls, length_app. simpl. lia. }
  destruct (fault w _); [exact Hw1|].
  destruct (String.eqb _ _); [exact Hw1|].
  pose proof (scanServices_calls pod (PodIP (Status pod))
                (client.InNamespace (Namespace (PodMeta pod)) (services w)) w1).
  lia.
Qed.

Lemma checkActiveConnections_calls pod w :
  (length (calls w) <= length (calls (snd (finalizer.checkActiveConnections pod w))))%nat.
Proof.
  unfold finalizer.checkActiveConnections.
  destruct (negb _); [run; lia|].
  destruct (_ =? 0); [run; lia|].
  destruct (negb _); [run; lia|].
  destruct (existsb _ _); [run; lia|].
  run. pose proof (checkPodEndpoints_calls pod w) as Hc.
  destruct (finalizer.checkPodEndpoints pod w) as [[b err] w1]. simpl in *.
  destruct err; simpl; [lia|]. destruct (negb b); simpl; lia.
Qed.

(** A drain decision on a pod that is being deleted reads the clock, so it
    always leaves a call in the log. *)
Lemma HandleGracefulDrain_reads_clock {C} `{finalizer.Config C}
    (d : finalizer.DrainHandler C) (pod : Pod) (t : Z) (w : World) :
  DeletionTimestamp (PodMeta pod) = Some t ->
  (length (calls w) < length (calls (snd (finalizer.HandleGracefulDrain d pod w))))%nat.
Proof.
  intros Ht. unfold finalizer.HandleGracefulDrain. rewrite Ht.
  unfold time.Since, client.Now. run.
  set (w1 := record CallNow w).
  assert (length (calls w) < length (calls w1))%nat as Hw1.
  { unfold w1. rewrite record_calls, length_app. simpl. lia. }
  destruct (_ <? _); [exact Hw1|].
  destruct (_ <? _); [exact Hw1|].
  destruct (_ || _); [exact Hw1|].
  destruct (negb _); [exact Hw1|].
  pose proof (checkActiveConnections_calls pod w1) as Hc.
  destruct (finalizer.checkActiveConnections pod w1) as [[b err] w2].
  cbn [fst snd] in *.
  destruct err; cbn [fst snd]; [lia|]. destruct (negb b); cbn [fst snd]; lia.
Qed.

(** The loop over the services returns no error, whatever the reads of the
    endpoints answer. *)
Lemma scanServices_no_error pod podIP items :
  forall w, snd (fst (finalizer.scanServices pod podIP items w)) = None.
Proof.
  induction items as [|service rest IH]; intros w; simpl.
  - reflexivity.
  - destruct (ServiceSelector service) as [selector|]; [|apply IH].
    destruct (labels.Matches selector (Labels (PodMeta pod))); [|apply IH].
    run. unfold client.GetEndpoints, client.get.
    destruct (fault w _); [apply IH|].
    destruct (endpoints w !! _) as [e|]; [|apply IH].
    destruct (finalizer.hasAddress e podIP); [reflexivity | apply IH].
Qed.

(** A matching service whose endpoints cannot be read is passed over: the
    loop goes on with the remaining services. *)
Lemma scanServices_skips_failed_read pod podIP service rest selector err w :
  ServiceSelector service = Some selector ->
  labels.Matches selector (Labels (PodMeta pod)) = true ->
  fault w (CallGet KEndpoints (Namespace (ServiceMeta service)) (Name (ServiceMeta service)))
  = Some err ->
  finalizer.scanServices pod podIP (service :: rest) w
  = finalizer.scanServices pod podIP rest
      (record (CallGet KEndpoints (Namespace (ServiceMeta service))
                 (Name (ServiceMeta service))) w).
Proof.
  intros Hsel Hm Hf. simpl. rewrite Hsel, Hm. run.
  unfold client.GetEndpoints, client.get. rewrite Hf. reflexivity.
Qed.

Lemma checkPodEndpoints_list_error pod w :
  match fault w (CallListServices (Namespace (PodMeta pod))) with
  | Some err => fst (finalizer.checkPodEndpoints pod w) = (false, Some err)
  | None => snd (fst (finalizer.checkPodEndpoints pod w)) = None
  end.
Proof.
  unfold finalizer.checkPodEndpoints. run. unfold client.ListServices.
  destruct (fault w _); [reflexivity|].
  destruct (String.eqb _ _); [reflexivity|]. apply scanServices_no_error.
Qed.

(** ** DrainDecisionEngine *)

(** The scenarios of section 8 of the specification on the serving pod. *)
Example scenario_deleted_10s_ago :
  fst (handlePodDeletion drain.pod NewDefaultConfig
         (drain.world (10 * time.Second) drain.healthy))
  = (requeueAfter (10 * time.Second), None).
Proof. reflexivity. Qed.

Example scenario_deleted_400s_ago :
  fst (finalizer.HandleGracefulDrain (finalizer.NewDrainHandler NewDefaultConfig) drain.pod
         (drain.world (400 * time.Second) drain.healthy))
  = (true, None).
Proof. reflexivity. Qed.

Example scenario_deleted_60s_ago_serving :
  fst (finalizer.HandleGracefulDrain (finalizer.NewDrainHandler NewDefaultConfig) drain.pod
         (drain.world (60 * time.Second) drain.healthy))
  = (false, None).
Proof. vm_compute. reflexivity. Qed.

(** C2. For a pod whose deletion timestamp is set, when the time since the
    deletion is below the grace period, HandleGracefulDrain returns release =
    false with no error, for every pod (phase, conditions, ports, labels),
    every configuration and every state of the cluster. *)
Theorem C2_hold_during_grace_window {C} `{finalizer.Config C}
    (d : finalizer.DrainHandler C) (pod : Pod) (t : Z) (w : World) :
  DeletionTimestamp (PodMeta pod) = Some t ->
  time.Sub (clock w) t < finalizer.GetGracePeriod (finalizer.config d) ->
  fst (finalizer.HandleGracefulDrain d pod w) = (false, None).
Proof.
  intros Ht Hlt. unfold finalizer.HandleGracefulDrain. rewrite Ht.
  unfold time.Since, client.Now. run.
  apply Z.ltb_lt in Hlt. rewrite Hlt. reflexivity.
Qed.

Lemma C2_witness :
  fst (finalizer.HandleGracefulDrain (finalizer.NewDrainHandler NewDefaultConfig) drain.pod
         (drain.world (10 * time.Second) drain.healthy))
  = (false, None).
Proof.
  apply (C2_hold_during_grace_window (finalizer.NewDrainHandler NewDefaultConfig)
           drain.pod 0); reflexivity.
Defined.

(** C3 as the specification words it fails. With grace period 500 s and drain timeout 300 s
    (the configuration ParseConfig returns for gracePeriodSeconds = "500"),
    400 s after the deletion the elapsed time is above the drain timeout and
    the handler still holds the pod: the grace-period rule comes first. *)
Lemma C3_counterexample :
  ParseConfig noDecoder (Some (samples.configMap {[ "gracePeriodSeconds" := "500" ]}))
  = inr drain.graceAboveTimeout /\
  DeletionTimestamp (PodMeta drain.pod) = Some 0 /\
  GetDrainTimeout drain.graceAboveTimeout
  < time.Sub (clock (drain.world (400 * time.Second) drain.healthy)) 0 /\
  fst (finalizer.HandleGracefulDrain (finalizer.NewDrainHandler drain.graceAboveTimeout)
         drain.pod (drain.world (400 * time.Second) drain.healthy))
  = (false, None).
Proof. repeat split. Qed.

(** C3 (amended). For a pod whose deletion timestamp is set, when the time
    since the deletion is above the drain timeout and not below the grace
    period, HandleGracefulDrain returns release = true with no error, for
    every pod and every state of the cluster. The second condition follows
    from the first for every configuration whose drain timeout is not below
    its grace period. *)
Theorem C3_release_past_timeout {C} `{finalizer.Config C}
    (d : finalizer.DrainHandler C) (pod : Pod) (t : Z) (w : World) :
  DeletionTimestamp (PodMeta pod) = Some t ->
  finalizer.GetDrainTimeout (finalizer.config d) < time.Sub (clock w) t ->
  finalizer.GetGracePeriod (finalizer.config d) <= time.Sub (clock w) t ->
  fst (finalizer.HandleGracefulDrain d pod w) = (true, None).
Proof.
  intros Ht Hto Hgr. unfold finalizer.HandleGracefulDrain. rewrite Ht.
  unfold time.Since, client.Now. run.
  apply Z.ltb_lt in Hto. apply Z.ltb_ge in Hgr. rewrite Hgr, Hto. reflexivity.
Qed.

Lemma C3_witness :
  fst (finalizer.HandleGracefulDrain (finalizer.NewDrainHandler NewDefaultConfig) drain.pod
         (drain.world (400 * time.Second) drain.healthy))
  = (true, None).
Proof.
  apply (C3_release_past_timeout (finalizer.NewDrainHandler NewDefaultConfig)
           drain.pod 0); [reflexivity | reflexivity | discriminate].
Defined.

(** With a drain timeout that is not below the grace period, being past the
    timeout is enough. *)
Corollary release_past_timeout_ordered {C} `{finalizer.Config C}
    (d : finalizer.DrainHandler C) (pod : Pod) (t : Z) (w : World) :
  finalizer.GetGracePeriod (finalizer.config d)
  <= finalizer.GetDrainTimeout (finalizer.config d) ->
  DeletionTimestamp (PodMeta pod) = Some t ->
  finalizer.GetDrainTimeout (finalizer.config d) < time.Sub (clock w) t ->
  fst (finalizer.HandleGracefulDrain d pod w) = (true, None).
Proof.
  intros Hord Ht Hto. unfold finalizer.HandleGracefulDrain. rewrite Ht.
  unfold time.Since, client.Now. run.
  assert ((time.Sub (clock w) t <? finalizer.GetGracePeriod (finalizer.config d)) = false)
    as -> by (apply Z.ltb_ge; lia).
  apply Z.ltb_lt in Hto. rewrite Hto. reflexivity.
Qed.

(** ** TrafficProbe *)

Lemma reachesEndpointCheck_run pod w :
  reachesEndpointCheck pod ->
  fst (finalizer.checkActiveConnections pod w)
  = match fst (finalizer.checkPodEndpoints pod w) with
    | (_, Some e) => (true, Some e)
    | (hasActiveEndpoints, None) => (hasActiveEndpoints, None)
    end.
Proof.
  intros (Hphase & Hcs & (c & Hin & Hports) & Hready).
  unfold finalizer.checkActiveConnections.
  rewrite Hphase, String.eqb_refl. cbn [negb].
  destruct (Containers (Spec pod)) as [|c0 cs] eqn:Hc; [congruence|].
  cbn [length Z.of_nat Z.eqb].
  assert (existsb (fun container => 0 <? Z.of_nat (length (Ports container))) (c0 :: cs)
          = true) as ->.
  { apply existsb_exists. exists c. split; [exact Hin|].
    destruct (Ports c); [congruence | reflexivity]. }
  cbn [negb].
  assert (existsb (fun condition =>
                     String.eqb (CondType condition) PodReady
                     && negb (String.eqb (CondStatus condition) ConditionTrue))
                  (Conditions (Status pod)) = false) as ->.
  { apply not_true_is_false. intros Hex. apply existsb_exists in Hex as (cond & Hc1 & Hc2).
    apply andb_true_iff in Hc2 as [Hty Hst]. apply String.eqb_eq in Hty.
    rewrite (Hready cond Hc1 Hty), String.eqb_refl in Hst. discriminate. }
  run. destruct (finalizer.checkPodEndpoints pod w) as [[b [e|]] w1]; cbn [fst snd].
  - reflexivity.
  - destruct b; reflexivity.
Qed.

(** C8 as the specification words it fails. The serving pod is selected by test-service, the
    endpoints of that service do not exist, so that their read fails with a
    not-found error: the probe passes the service over and answers
    (false, nil), as the test "should continue checking when endpoints
    don't exist for a service" expects. *)
Lemma C8_counterexample :
  reachesEndpointCheck drain.pod /\
  ServiceSelector drain.service = Some {[ "app" := "test" ]} /\
  labels.Matches {[ "app" := "test" ]} (Labels (PodMeta drain.pod)) = true /\
  fst (client.GetEndpoints "default" "test-service"
         (drain.withoutEndpoints (60 * time.Second)))
  = inl notFound /\
  fst (finalizer.checkActiveConnections drain.pod
         (drain.withoutEndpoints (60 * time.Second)))
  = (false, None).
Proof.
  split; [|repeat split; vm_compute; reflexivity].
  repeat split; try discriminate.
  - eexists. split; [left; reflexivity | discriminate].
  - intros condition [<-|[]] _. reflexivity.
Qed.

(** The same happens when the endpoints exist and hold the pod's address but
    their read fails for another reason: the probe answers (false, nil) and
    the handler releases the pod. *)
Example endpoints_read_timeout_is_passed_over :
  fst (client.GetEndpoints "default" "test-service"
         (drain.world (60 * time.Second) drain.endpointsUnreadable))
  = inl drain.timeout /\
  fst (finalizer.checkActiveConnections drain.pod
         (drain.world (60 * time.Second) drain.endpointsUnreadable))
  = (false, None) /\
  fst (finalizer.HandleGracefulDrain (finalizer.NewDrainHandler NewDefaultConfig) drain.pod
         (drain.world (60 * time.Second) drain.endpointsUnreadable))
  = (true, None).
Proof. repeat split; vm_compute; reflexivity. Qed.

(** The answer of the loop over the services depends on the world only
    through the endpoints it holds and the calls that fail. *)
Lemma scanServices_answer_ext pod podIP items :
  forall w w',
    fault w = fault w' -> endpoints w = endpoints w' ->
    fst (finalizer.scanServices pod podIP items w)
    = fst (finalizer.scanServices pod podIP items w').
Proof.
  induction items as [|service rest IH]; intros w w' Hf He; simpl.
  - reflexivity.
  - destruct (ServiceSelector service) as [selector|]; [|apply IH; assumption].
    destruct (labels.Matches selector (Labels (PodMeta pod))); [|apply IH; assumption].
    unfold mbind, M_bind, client.GetEndpoints, client.get. rewrite Hf, He.
    destruct (fault w' _); [apply IH; assumption|].
    destruct (endpoints w' !! _) as [e|]; [|apply IH; assumption].
    destruct (finalizer.hasAddress e podIP); [reflexivity | apply IH; assumption].
Qed.

(** A service whose endpoints cannot be read adds nothing to the answer of
    the loop: the answer is that of the loop over the other services. *)
Lemma scanServices_passes_over pod podIP service err before after :
  forall w,
    fst (client.GetEndpoints (Namespace (ServiceMeta service))
           (Name (ServiceMeta service)) w) = inl err ->
    fst (finalizer.scanServices pod podIP (before ++ service :: after) w)
    = fst (finalizer.scanServices pod podIP (before ++ after) w).
Proof.
  induction before as [|s0 before IH]; intros w Hread.
  - cbn [app]. simpl.
    destruct (ServiceSelector service) as [selector|]; [|reflexivity].
    destruct (labels.Matches selector (Labels (PodMeta pod))); [|reflexivity].
    unfold mbind, M_bind.
    destruct (client.GetEndpoints (Namespace (ServiceMeta service))
                (Name (ServiceMeta service)) w) as [r w1] eqn:Hget.
    cbn [fst] in Hread. subst r.
    apply scanServices_answer_ext.
    + unfold client.GetEndpoints, client.get in Hget. injection Hget as _ <-. reflexivity.
    + unfold client.GetEndpoints, client.get in Hget. injection Hget as _ <-. reflexivity.
  - cbn [app]. simpl.
    destruct (ServiceSelector s0) as [selector|]; [|apply IH; exact Hread].
    destruct (labels.Matches selector (Labels (PodMeta pod))); [|apply IH; exact Hread].
    unfold mbind, M_bind, client.GetEndpoints, client.get.
    destruct (fault w _); [apply IH; exact Hread|].
    destruct (endpoints w !! _) as [e|]; [|apply IH; exact Hread].
    destruct (finalizer.hasAddress e podIP); [reflexivity | apply IH; exact Hread].
Qed.

Lemma InNamespace_split namespace before (service : Service) after :
  client.InNamespace namespace (before ++ service :: after)
  = (client.InNamespace namespace before ++ service :: client.InNamespace namespace after)%list
  \/ client.InNamespace namespace (before ++ service :: after)
     = client.InNamespace namespace (before ++ after).
Proof.
  unfold client.InNamespace. destruct (String.eqb namespace ""); [left; reflexivity|].
  rewrite !filter_app, filter_cons.
  destruct (decide (Namespace (ServiceMeta service) = namespace)); [left | right]; reflexivity.
Qed.

Lemma InNamespace_app namespace (before after : list Service) :
  client.InNamespace namespace (before ++ after)
  = (client.InNamespace namespace before ++ client.InNamespace namespace after)%list.
Proof.
  unfold client.InNamespace. destruct (String.eqb namespace ""); [reflexivity|].
  apply filter_app.
Qed.

Lemma checkPodEndpoints_passes_over pod w service err before after :
  services w = (before ++ service :: after)%list ->
  fst (client.GetEndpoints (Namespace (ServiceMeta service))
         (Name (ServiceMeta service)) w) = inl err ->
  fst (finalizer.checkPodEndpoints pod w)
  = fst (finalizer.checkPodEndpoints pod (withServices (before ++ after) w)).
Proof.
  intros Hs Hread.
  unfold finalizer.checkPodEndpoints, mbind, M_bind, client.ListServices.
  cbn [fault services withServices]. rewrite Hs.
  destruct (fault w _); [reflexivity|].
  destruct (String.eqb _ _); [reflexivity|].
  set (w1 := record _ w). set (w1' := record _ (withServices _ w)).
  assert (fst (client.GetEndpoints (Namespace (ServiceMeta service))
                 (Name (ServiceMeta service)) w1) = inl err) as Hread1 by exact Hread.
  destruct (InNamespace_split (Namespace (PodMeta pod)) before service after) as [-> | ->].
  - rewrite (scanServices_passes_over pod _ service err _ _ w1 Hread1).
    rewrite <- InNamespace_app. apply scanServices_answer_ext; reflexivity.
  - apply scanServices_answer_ext; reflexivity.
Qed.

Lemma InNamespace_In namespace items (s : Service) :
  In s (client.InNamespace namespace items) -> In s items.
Proof.
  unfold client.InNamespace. destruct (String.eqb namespace ""); [tauto|].
  intros Hin. apply list_elem_of_In, list_elem_of_filter in Hin as [_ Hin].
  apply list_elem_of_In. exact Hin.
Qed.

(** When no endpoints can be read, the loop finds nothing and reports no
    error. *)
Lemma scanServices_all_reads_fail pod podIP items :
  forall w,
    (forall s, In s items ->
       exists err, fst (client.GetEndpoints (Namespace (ServiceMeta s))
                          (Name (ServiceMeta s)) w) = inl err) ->
    fst (finalizer.scanServices pod podIP items w) = (false, None).
Proof.
  induction items as [|service rest IH]; intros w Hall; simpl.
  - reflexivity.
  - assert (forall c, fst (finalizer.scanServices pod podIP rest (record c w))
                      = (false, None)) as IHc.
    { intros c. apply IH. intros s Hin. exact (Hall s (or_intror Hin)). }
    destruct (ServiceSelector service) as [selector|].
    2:{ apply IH. intros s Hin. exact (Hall s (or_intror Hin)). }
    destruct (labels.Matches selector (Labels (PodMeta pod))).
    2:{ apply IH. intros s Hin. exact (Hall s (or_intror Hin)). }
    destruct (Hall service (or_introl eq_refl)) as [err Hread].
    unfold mbind, M_bind.
    destruct (client.GetEndpoints (Namespace (ServiceMeta service))
                (Name (ServiceMeta service)) w) as [r w1] eqn:Hget.
    cbn [fst] in Hread. subst r.
    unfold client.GetEndpoints, client.get in Hget. injection Hget as _ <-.
    apply IHc.
Qed.

(** C8 (amended). For a Running pod with a container, an exposed port and no
    Ready condition of a status other than True: when the listing of the
    services of the pod's namespace fails with err, checkActiveConnections
    returns (true, err); a service whose endpoints read answers not found
    is passed over: the answer, result and error, is the one the probe gives
    in the same cluster without that service, so the failed read brings
    neither a true result nor an error. This holds for every service of the
    cluster, so for the ones that select the pod, the only ones whose
    endpoints are read, and the sample is one of these. When the listing
    succeeds and the endpoints of every service are not found, the answer
    is (false, nil). *)
Theorem C8_listing_error_is_propagated_missing_endpoints_are_not (pod : Pod) (w : World) :
  reachesEndpointCheck pod ->
  (forall err,
      fault w (CallListServices (Namespace (PodMeta pod))) = Some err ->
      fst (finalizer.checkActiveConnections pod w) = (true, Some err)) /\
  (forall before service after,
      services w = (before ++ service :: after)%list ->
      fst (client.GetEndpoints (Namespace (ServiceMeta service))
             (Name (ServiceMeta service)) w) = inl notFound ->
      fst (finalizer.checkActiveConnections pod w)
      = fst (finalizer.checkActiveConnections pod (withServices (before ++ after) w))) /\
  (fault w (CallListServices (Namespace (PodMeta pod))) = None ->
   (forall service,
       In service (services w) ->
       fst (client.GetEndpoints (Namespace (ServiceMeta service))
              (Name (ServiceMeta service)) w) = inl notFound) ->
   fst (finalizer.checkActiveConnections pod w) = (false, None)).
Proof.
  intros Hpod. split; [|split].
  - intros err Hf. rewrite (reachesEndpointCheck_run pod w Hpod).
    pose proof (checkPodEndpoints_list_error pod w) as Hl.
    rewrite Hf in Hl. rewrite Hl. reflexivity.
  - intros before service after Hs Hread.
    rewrite (reachesEndpointCheck_run pod w Hpod).
    rewrite (reachesEndpointCheck_run pod (withServices (before ++ after) w) Hpod).
    rewrite (checkPodEndpoints_passes_over pod w service notFound before after Hs Hread).
    reflexivity.
  - intros Hf Hall. rewrite (reachesEndpointCheck_run pod w Hpod).
    unfold finalizer.checkPodEndpoints, mbind, M_bind, client.ListServices.
    rewrite Hf.
    destruct (String.eqb _ _); [reflexivity|].
    cbn [fst].
    rewrite scanServices_all_reads_fail; [reflexivity|].
    intros s Hin. exists notFound. apply InNamespace_In in Hin.
    exact (Hall s Hin).
Qed.

Lemma C8_witness :
  fst (finalizer.checkActiveConnections drain.pod
         (drain.world (60 * time.Second) drain.servicesUnlistable))
  = (true, Some drain.timeout) /\
  fst (finalizer.checkActiveConnections drain.pod
         (drain.withoutEndpoints (60 * time.Second)))
  = fst (finalizer.checkActiveConnections drain.pod
           (withServices [] (drain.withoutEndpoints (60 * time.Second)))) /\
  fst (finalizer.checkActiveConnections drain.pod
         (drain.withoutEndpoints (60 * time.Second)))
  = (false, None).
Proof.
  assert (reachesEndpointCheck drain.pod) as Hpod.
  { repeat split; try discriminate.
    - eexists. split; [left; reflexivity | discriminate].
    - intros condition [<-|[]] _. reflexivity. }
  split; [|split].
  - apply (proj1 (C8_listing_error_is_propagated_missing_endpoints_are_not drain.pod
                    (drain.world (60 * time.Second) drain.servicesUnlistable) Hpod)).
    reflexivity.
  - apply (proj1 (proj2 (C8_listing_error_is_propagated_missing_endpoints_are_not
                           drain.pod (drain.withoutEndpoints (60 * time.Second)) Hpod))
             [] drain.service []).
    + reflexivity.
    + vm_compute. reflexivity.
  - apply (proj2 (proj2 (C8_listing_error_is_propagated_missing_endpoints_are_not
                           drain.pod (drain.withoutEndpoints (60 * time.Second)) Hpod))).
    + reflexivity.
    + intros service [<-|[]]. vm_compute. reflexivity.
Defined.

(** ** LifecycleGuard *)

(** C9. For a pod with a deletion timestamp whose finalizer list does not
    hold the guard marker, handlePodDeletion returns the zero Result and no
    error and leaves the world as it was: no pod is written and the call log
    is unchanged. No drain decision ran, since on this pod it would have
    changed the world by reading the clock. *)
Theorem C9_unguarded_pod_is_left_alone (pod : Pod) (config : Config) (t : Z) (w : World) :
  DeletionTimestamp (PodMeta pod) = Some t ->
  ~ In VPAGracefulDrainFinalizer (Finalizers (PodMeta pod)) ->
  handlePodDeletion pod config w = ((noRequeue, None), w) /\
  snd (finalizer.HandleGracefulDrain (finalizer.NewDrainHandler config) pod w) <> w.
Proof.
  intros Ht Hfin. split.
  - unfold handlePodDeletion, ContainsFinalizer.
    apply rangeFinds_not_In in Hfin. rewrite Hfin. reflexivity.
  - intros Heq.
    pose proof (HandleGracefulDrain_reads_clock (finalizer.NewDrainHandler config)
                  pod t w Ht) as Hlen.
    rewrite Heq in Hlen. lia.
Qed.

Lemma C9_witness :
  handlePodDeletion unguarded.pod NewDefaultConfig (drain.world (60 * time.Second) drain.healthy)
  = ((noRequeue, None), drain.world (60 * time.Second) drain.healthy).
Proof.
  apply (C9_unguarded_pod_is_left_alone unguarded.pod NewDefaultConfig 0).
  - reflexivity.
  - simpl. intros [H|[]]. discriminate H.
Defined.

(** * Further properties of the code *)

(** ** Configuration *)

Lemma ParseConfig_ordering_witness :
  GracePeriodSeconds {| GracePeriodSeconds := 45; DrainTimeoutSeconds := 900;
                        Selector := None |}
  <= DrainTimeoutSeconds {| GracePeriodSeconds := 45; DrainTimeoutSeconds := 900;
                            Selector := None |}
  \/ (index (Data (samples.configMap
                     {[ "gracePeriodSeconds" := "45"; "drainTimeoutSeconds" := "900" ]}))
        "drainTimeoutSeconds" = None /\
      DrainTimeoutSeconds {| GracePeriodSeconds := 45; DrainTimeoutSeconds := 900;
                             Selector := None |} = 300 /\
      300 < GracePeriodSeconds {| GracePeriodSeconds := 45; DrainTimeoutSeconds := 900;
                                  Selector := None |} <= 3600).
Proof.
  apply (ParseConfig_ordering noDecoder
           (samples.configMap
              {[ "gracePeriodSeconds" := "45"; "drainTimeoutSeconds" := "900" ]})).
  reflexivity.
Defined.

(** The three steps of the parse, each on the configuration before it. *)
Lemma parseGracePeriod_inv data c c' :
  parseGracePeriod data c = inr c' ->
  DrainTimeoutSeconds c' = DrainTimeoutSeconds c /\ Selector c' = Selector c /\
  (GracePeriodSeconds c' = GracePeriodSeconds c \/ 0 <= GracePeriodSeconds c' <= 3600).
Proof.
  unfold parseGracePeriod. destruct (index data "gracePeriodSeconds") as [gs|].
  - destruct (strconv.ParseInt gs) as [g [e|]]; [discriminate|].
    destruct (Z.ltb_spec g 0); [discriminate|].
    destruct (Z.ltb_spec 3600 g); [discriminate|].
    intros [= <-]. simpl. repeat split; try reflexivity. right. lia.
  - intros [= <-]. repeat split; try reflexivity. left. reflexivity.
Qed.

Lemma parseDrainTimeout_inv data c c' :
  parseDrainTimeout data c = inr c' ->
  GracePeriodSeconds c' = GracePeriodSeconds c /\ Selector c' = Selector c /\
  (DrainTimeoutSeconds c' = DrainTimeoutSeconds c \/ 0 < DrainTimeoutSeconds c' <= 7200).
Proof.
  unfold parseDrainTimeout. destruct (index data "drainTimeoutSeconds") as [ds|].
  - destruct (strconv.ParseInt ds) as [t [e|]]; [discriminate|].
    destruct (Z.leb_spec t 0); [discriminate|].
    destruct (Z.ltb_spec 7200 t); [discriminate|].
    destruct (Z.ltb_spec t (GracePeriodSeconds c)); [discriminate|].
    intros [= <-]. simpl. repeat split; try reflexivity. right. lia.
  - intros [= <-]. repeat split; try reflexivity. left. reflexivity.
Qed.

Lemma parseNamespaceSelector_inv u data c c' :
  parseNamespaceSelector u data c = inr c' ->
  GracePeriodSeconds c' = GracePeriodSeconds c /\
  DrainTimeoutSeconds c' = DrainTimeoutSeconds c.
Proof.
  unfold parseNamespaceSelector. destruct (index data "namespaceSelector") as [js|].
  - destruct (u js); [discriminate|]. intros [= <-]. split; reflexivity.
  - intros [= <-]. split; reflexivity.
Qed.

(** On a ConfigMap, nil data or not, the parse is the chain of the three
    steps from the default configuration. *)
Lemma ParseConfig_chain u (cm : ConfigMap) :
  ParseConfig u (Some cm)
  = match parseGracePeriod (Data cm) NewDefaultConfig with
    | inl err => inl err
    | inr c1 =>
        match parseDrainTimeout (Data cm) c1 with
        | inl err => inl err
        | inr c2 => parseNamespaceSelector u (Data cm) c2
        end
    end.
Proof.
  unfold ParseConfig. destruct (Data cm) as [data|]; reflexivity.
Qed.

Lemma ParseConfig_in_bounds u (cm : ConfigMap) (cfg : Config) :
  ParseConfig u (Some cm) = inr cfg ->
  0 <= GracePeriodSeconds cfg <= 3600 /\ 0 < DrainTimeoutSeconds cfg <= 7200.
Proof.
  rewrite ParseConfig_chain.
  destruct (parseGracePeriod (Data cm) NewDefaultConfig) as [e|c1] eqn:H1; [discriminate|].
  destruct (parseDrainTimeout (Data cm) c1) as [e|c2] eqn:H2; [discriminate|].
  intros H3.
  apply parseGracePeriod_inv in H1 as (Hd1 & _ & Hg1).
  apply parseDrainTimeout_inv in H2 as (Hg2 & _ & Hd2).
  apply parseNamespaceSelector_inv in H3 as (Hg3 & Hd3).
  simpl in *. lia.
Qed.

(** X2. Every configuration ParseConfig accepts has a grace period between 0 and
    3600 seconds and a drain timeout above 0 and at most 7200 seconds. *)
Theorem ParseConfig_bounds u (cm : ConfigMap) (cfg : Config) :
  ParseConfig u (Some cm) = inr cfg ->
  0 <= GracePeriodSeconds cfg <= 3600 /\ 0 < DrainTimeoutSeconds cfg <= 7200.
Proof. apply ParseConfig_in_bounds. Qed.

Lemma ParseConfig_bounds_witness :
  0 <= 45 <= 3600 /\ 0 < 900 <= 7200.
Proof.
  apply (ParseConfig_bounds noDecoder
           (samples.configMap
              {[ "gracePeriodSeconds" := "45"; "drainTimeoutSeconds" := "900" ]})
           {| GracePeriodSeconds := 45; DrainTimeoutSeconds := 900; Selector := None |}).
  reflexivity.
Defined.

(** X3. ParseConfig reads the three recognised keys and nothing else: two
    ConfigMaps that agree on them, whatever their other entries, their
    metadata, and whether their data is nil or merely lacks the keys, parse
    to the same result. *)
Theorem ParseConfig_reads_three_keys u (cm1 cm2 : ConfigMap) :
  index (Data cm1) "gracePeriodSeconds" = index (Data cm2) "gracePeriodSeconds" ->
  index (Data cm1) "drainTimeoutSeconds" = index (Data cm2) "drainTimeoutSeconds" ->
  index (Data cm1) "namespaceSelector" = index (Data cm2) "namespaceSelector" ->
  ParseConfig u (Some cm1) = ParseConfig u (Some cm2).
Proof.
  intros Hg Hd Hs. rewrite !ParseConfig_chain.
  unfold parseGracePeriod, parseDrainTimeout, parseNamespaceSelector.
  rewrite Hg, Hd, Hs. reflexivity.
Qed.

Lemma ParseConfig_reads_three_keys_witness :
  ParseConfig noDecoder
    (Some {| ConfigMapMeta := samples.meta "kube-system" "vpa-graceful-drain-config";
             Data := None |})
  = ParseConfig noDecoder
      (Some (samples.configMap {[ "logLevel" := "debug"; "GracePeriodSeconds" := "1" ]})).
Proof.
  apply ParseConfig_reads_three_keys; reflexivity.
Defined.

Lemma wrap64_small z : minInt64 <= z <= maxInt64 -> wrap64 z = z.
Proof.
  unfold wrap64, minInt64, maxInt64. intros Hz.
  rewrite Z.mod_small by lia. lia.
Qed.

(** X4. Whatever configuration getConfig hands to the reconciler, parsed or
    default, is within the validator's bounds, and its two durations are the
    seconds times 10^9 nanoseconds without wrap-around. *)
Theorem getConfig_bounds_and_durations u r w (cfg : Config) :
  fst (getConfig u r w) = inr cfg ->
  0 <= GracePeriodSeconds cfg <= 3600 /\ 0 < DrainTimeoutSeconds cfg <= 7200 /\
  GetGracePeriod cfg = GracePeriodSeconds cfg * 1000000000 /\
  GetDrainTimeout cfg = DrainTimeoutSeconds cfg * 1000000000.
Proof.
  intros Hget.
  assert (0 <= GracePeriodSeconds cfg <= 3600 /\ 0 < DrainTimeoutSeconds cfg <= 7200)
    as [Hg Hd].
  { unfold getConfig, mbind, M_bind, mret, M_ret in Hget.
    destruct (client.GetConfigMap (ConfigMapNamespace r) (ConfigMapName r) w)
      as [[err|cm] w1].
    - destruct (IsNotFound err); cbn [fst] in Hget; [|discriminate Hget].
      injection Hget as <-. simpl. lia.
    - cbn [fst] in Hget. exact (ParseConfig_in_bounds u cm cfg Hget). }
  repeat split; try lia.
  - unfold GetGracePeriod, time.Second. apply wrap64_small.
    unfold minInt64, maxInt64. lia.
  - unfold GetDrainTimeout, time.Second. apply wrap64_small.
    unfold minInt64, maxInt64. lia.
Qed.

Lemma getConfig_bounds_and_durations_witness :
  0 <= GracePeriodSeconds NewDefaultConfig <= 3600 /\
  0 < DrainTimeoutSeconds NewDefaultConfig <= 7200 /\
  GetGracePeriod NewDefaultConfig = GracePeriodSeconds NewDefaultConfig * 1000000000 /\
  GetDrainTimeout NewDefaultConfig = DrainTimeoutSeconds NewDefaultConfig * 1000000000.
Proof.
  apply (getConfig_bounds_and_durations noDecoder
           {| ConfigMapName := "vpa-graceful-drain-config";
              ConfigMapNamespace := "kube-system" |}
           (emptyWorld 0)).
  reflexivity.
Defined.

(** ** Namespace filter *)

Lemma rangeFinds_perm l l' x :
  Permutation l l' -> rangeFinds l x = rangeFinds l' x.
Proof.
  intros Hp. destruct (rangeFinds l x) eqn:H1; symmetry.
  - apply rangeFinds_In. apply rangeFinds_In in H1.
    exact (Permutation_in x Hp H1).
  - apply rangeFinds_not_In. apply rangeFinds_not_In in H1.
    intros Hin. apply H1. exact (Permutation_in x (Permutation_sym Hp) Hin).
Qed.

(** X6. Matches does not depend on the order of the include and exclude lists,
    nor on whether an empty list is nil or allocated. *)
Theorem Matches_order_independent (ns ns' : NamespaceSelector) (namespace : string) :
  Permutation (elems (Include ns)) (elems (Include ns')) ->
  Permutation (elems (Exclude ns)) (elems (Exclude ns')) ->
  Matches (Some ns) namespace = Matches (Some ns') namespace.
Proof.
  intros Hi He. unfold Matches, len.
  rewrite (Permutation_length Hi), (Permutation_length He).
  rewrite (rangeFinds_perm _ _ namespace Hi), (rangeFinds_perm _ _ namespace He).
  reflexivity.
Qed.

Lemma Matches_order_independent_witness :
  Matches (Some {| Include := Some ["default"; "production"]; Exclude := None |}) "production"
  = Matches (Some {| Include := Some ["production"; "default"]; Exclude := Some [] |})
      "production".
Proof.
  apply Matches_order_independent.
  - apply perm_swap.
  - apply Permutation_refl.
Defined.

(** ** Eligibility *)

(** X7. A pod in a namespace the selector turns away is never managed, whatever
    its annotations, labels and resources: a namespace on the exclude list,
    or one missing from a nonempty include list. *)
Theorem shouldManagePod_namespace_gate (pod : Pod) (config : Config)
    (sel : NamespaceSelector) :
  Selector config = Some sel ->
  In (Namespace (PodMeta pod)) (elems (Exclude sel)) \/
  (elems (Include sel) <> [] /\ ~ In (Namespace (PodMeta pod)) (elems (Include sel))) ->
  shouldManagePod pod config = false.
Proof.
  intros Hsel Hns. unfold shouldManagePod. rewrite Hsel.
  assert (Matches (Some sel) (Namespace (PodMeta pod)) = false) as ->.
  { unfold Matches. destruct Hns as [Hex|[Hne Hnin]].
    - assert ((0 <? len (Exclude sel)) = true) as ->.
      { apply len_pos_nonempty. intros E. rewrite E in Hex. exact Hex. }
      apply rangeFinds_In in Hex. rewrite Hex. reflexivity.
    - destruct ((0 <? len (Exclude sel)) && rangeFinds (elems (Exclude sel))
                  (Namespace (PodMeta pod))); [reflexivity|].
      apply len_pos_nonempty in Hne. rewrite Hne.
      apply rangeFinds_not_In. exact Hnin. }
  reflexivity.
Qed.

Lemma shouldManagePod_namespace_gate_witness :
  shouldManagePod
    {| PodMeta :=
         {| Name := "test-pod"; Namespace := "kube-system"; Labels := None;
            Annotations := Some {[ "vpa-managed" := "true" ]};
            OwnerReferences := []; Finalizers := []; DeletionTimestamp := None |};
       Spec := {| Containers := [] |};
       Status := {| Phase := PodRunning; Conditions := []; PodIP := "" |} |}
    {| GracePeriodSeconds := 30; DrainTimeoutSeconds := 300;
       Selector := Some {| Include := Some ["default"; "production"]; Exclude := None |} |}
  = false.
Proof.
  apply (shouldManagePod_namespace_gate _ _
           {| Include := Some ["default"; "production"]; Exclude := None |}).
  - reflexivity.
  - right. split; [discriminate|]. simpl. intros [H|[H|[]]]; discriminate H.
Defined.

(** X8. The heuristic on the whole pod: it fires exactly when the pod has an
    owner reference and some container that sets requests or limits has a
    positive CPU request that is no multiple of 50 millicores or a positive
    memory request that is no multiple of 1 MiB. Limits are never read. *)
Theorem isPodFromVPAManagedWorkload_spec (pod : Pod) :
  isPodFromVPAManagedWorkload pod = true <->
  OwnerReferences (PodMeta pod) <> [] /\
  exists c, In c (Containers (Spec pod)) /\
    (Requests (Resources c) <> None \/ Limits (Resources c) <> None) /\
    ((0 < MilliValue (Cpu (Requests (Resources c))) /\
      Z.rem (MilliValue (Cpu (Requests (Resources c)))) 50 <> 0) \/
     (0 < Value (Memory (Requests (Resources c))) /\
      Z.rem (Value (Memory (Requests (Resources c)))) (1024 * 1024) <> 0)).
Proof.
  unfold isPodFromVPAManagedWorkload.
  assert (forall c,
    looksVPAGenerated c = true <->
    (Requests (Resources c) <> None \/ Limits (Resources c) <> None) /\
    ((0 < MilliValue (Cpu (Requests (Resources c))) /\
      Z.rem (MilliValue (Cpu (Requests (Resources c)))) 50 <> 0) \/
     (0 < Value (Memory (Requests (Resources c))) /\
      Z.rem (Value (Memory (Requests (Resources c)))) (1024 * 1024) <> 0))) as Hc.
  { intros c. rewrite looksVPAGenerated_spec. cbv zeta.
    set (cpu := MilliValue _). set (mem := Value _).
    assert (Z.rem cpu 50 <> 0 -> Z.rem cpu 100 <> 0) as H100.
    { intros H50 H. apply H50. apply Z.rem_divide in H; [|lia].
      apply Z.rem_divide; [lia|]. destruct H as [k Hk]. exists (k * 2). lia. }
    tauto. }
  destruct (OwnerReferences (PodMeta pod)) as [|o os]; simpl.
  - split; [discriminate | intros [H _]; congruence].
  - rewrite existsb_exists. split.
    + intros (c & Hin & Hl). split; [discriminate|]. exists c. split; [exact Hin|].
      apply Hc. exact Hl.
    + intros (_ & c & Hin & Hl). exists c. split; [exact Hin|]. apply Hc. exact Hl.
Qed.

(** X9. Where the label and the heuristic give no signal, and the explicit
    annotation is absent or "true", the reconciler's classification of an
    admitted pod is the answer of the event filter of SetupWithManager. *)
Theorem shouldManagePod_agrees_with_event_filter (pod : Pod) (config : Config) :
  Matches (Selector config) (Namespace (PodMeta pod)) = true ->
  index (Labels (PodMeta pod)) "vpa.k8s.io/managed" = None ->
  isPodFromVPAManagedWorkload pod = false ->
  index (Annotations (PodMeta pod)) "vpa-managed" = None \/
  index (Annotations (PodMeta pod)) "vpa-managed" = Some "true" ->
  shouldManagePod pod config = podEventFilter (PodObject pod).
Proof.
  intros Hns Hlab Hheur Hann. unfold shouldManagePod, podEventFilter.
  rewrite Hns, andb_false_r, Hlab, Hheur.
  destruct Hann as [-> | ->]; [|reflexivity].
  destruct (bool_decide _); [reflexivity|].
  destruct (index (Annotations (PodMeta pod)) "vpa.k8s.io/resource-name") as [v|];
    [|reflexivity].
  destruct (negb (String.eqb v "")); reflexivity.
Qed.

Lemma shouldManagePod_agrees_with_event_filter_witness :
  shouldManagePod drain.pod NewDefaultConfig = podEventFilter (PodObject drain.pod).
Proof.
  apply shouldManagePod_agrees_with_event_filter; try reflexivity.
  right. reflexivity.
Defined.

(** The event filter lets a pod through on a legacy annotation even when
    the explicit annotation says "false", a pod the reconciler then leaves
    alone. *)
Example event_filter_passes_pod_left_alone :
  podEventFilter (PodObject annotated.pod) = true /\
  shouldManagePod annotated.pod NewDefaultConfig = false.
Proof. split; reflexivity. Qed.

(** ** Traffic probe and drain decision *)

Lemma reads_refl w : reads w w.
Proof.
  exists []. split; [|constructor].
  destruct w. unfold withCalls. simpl. rewrite app_nil_r. reflexivity.
Qed.

Lemma reads_trans w1 w2 w3 : reads w1 w2 -> reads w2 w3 -> reads w1 w3.
Proof.
  intros (l1 & -> & H1) (l2 & -> & H2). exists (l1 ++ l2)%list. split.
  - unfold withCalls. simpl. rewrite app_assoc. reflexivity.
  - apply Forall_app. split; assumption.
Qed.

Lemma reads_record c w : isRead c = true -> reads w (record c w).
Proof.
  intros Hc. exists [c]. split; [reflexivity|]. constructor; [exact Hc | constructor].
Qed.

Lemma reads_after c w w' : isRead c = true -> reads (record c w) w' -> reads w w'.
Proof. intros Hc. apply reads_trans, reads_record, Hc. Qed.

Lemma scanServices_reads pod podIP items :
  forall w, reads w (snd (finalizer.scanServices pod podIP items w)).
Proof.
  induction items as [|service rest IH]; intros w; simpl.
  - apply reads_refl.
  - destruct (ServiceSelector service) as [selector|]; [|apply IH].
    destruct (labels.Matches selector (Labels (PodMeta pod))); [|apply IH].
    unfold mbind, M_bind, client.GetEndpoints, client.get.
    set (c := CallGet _ _ _).
    assert (reads w (snd (finalizer.scanServices pod podIP rest (record c w)))) as Hrest
      by (apply (reads_after c); [reflexivity | apply IH]).
    destruct (fault w c); [exact Hrest|].
    destruct (endpoints w !! _) as [e|]; [|exact Hrest].
    destruct (finalizer.hasAddress e podIP); [|exact Hrest].
    apply reads_record. reflexivity.
Qed.

Lemma checkPodEndpoints_reads pod w :
  reads w (snd (finalizer.checkPodEndpoints pod w)).
Proof.
  unfold finalizer.checkPodEndpoints, mbind, M_bind, client.ListServices.
  set (c := CallListServices _).
  destruct (fault w c); [apply reads_record; reflexivity|].
  destruct (String.eqb _ _); [apply reads_record; reflexivity|].
  apply (reads_after c); [reflexivity|]. apply scanServices_reads.
Qed.

Lemma checkActiveConnections_reads pod w :
  reads w (snd (finalizer.checkActiveConnections pod w)).
Proof.
  unfold finalizer.checkActiveConnections.
  destruct (negb _); [apply reads_refl|].
  destruct (_ =? 0); [apply reads_refl|].
  destruct (negb _); [apply reads_refl|].
  destruct (existsb _ _); [apply reads_refl|].
  unfold mbind, M_bind.
  pose proof (checkPodEndpoints_reads pod w) as Hl.
  destruct (finalizer.checkPodEndpoints pod w) as [[b err] w1]. cbn [snd] in Hl.
  destruct err; [exact Hl|]. destruct (negb b); exact Hl.
Qed.

Lemma HandleGracefulDrain_reads {C} `{finalizer.Config C}
    (d : finalizer.DrainHandler C) (pod : Pod) (w : World) :
  reads w (snd (finalizer.HandleGracefulDrain d pod w)).
Proof.
  unfold finalizer.HandleGracefulDrain.
  destruct (DeletionTimestamp (PodMeta pod)) as [t|]; [|apply reads_refl].
  unfold mbind, M_bind, time.Since, client.Now, mbind, M_bind, mret, M_ret.
  assert (reads w (record CallNow w)) as Hnow by (apply reads_record; reflexivity).
  destruct (_ <? _); [exact Hnow|].
  destruct (_ <? _); [exact Hnow|].
  destruct (_ || _); [exact Hnow|].
  destruct (negb _); [exact Hnow|].
  pose proof (checkActiveConnections_reads pod (record CallNow w)) as Hl.
  destruct (finalizer.checkActiveConnections pod (record CallNow w)) as [[b err] w1].
  cbn [snd] in Hl. pose proof (reads_trans _ _ _ Hnow Hl) as Hw1.
  destruct err; [exact Hw1|]. destruct (negb b); exact Hw1.
Qed.

(** X10. The drain decision only reads: it leaves the clock, every stored object
    and the failing calls as they were, and what it adds to the call log
    holds no Update. *)
Theorem HandleGracefulDrain_only_reads {C} `{finalizer.Config C}
    (d : finalizer.DrainHandler C) (pod : Pod) (w : World) :
  reads w (snd (finalizer.HandleGracefulDrain d pod w)).
Proof. apply HandleGracefulDrain_reads. Qed.

Lemma checkActiveConnections_error pod w e :
  snd (fst (finalizer.checkActiveConnections pod w)) = Some e ->
  fst (fst (finalizer.checkActiveConnections pod w)) = true /\
  fault w (CallListServices (Namespace (PodMeta pod))) = Some e.
Proof.
  unfold finalizer.checkActiveConnections.
  destruct (negb _); [discriminate|].
  destruct (_ =? 0); [discriminate|].
  destruct (negb _); [discriminate|].
  destruct (existsb _ _); [discriminate|].
  unfold mbind, M_bind.
  pose proof (checkPodEndpoints_list_error pod w) as Hl.
  destruct (finalizer.checkPodEndpoints pod w) as [[b err] w1]. cbn [fst snd] in Hl.
  destruct err as [e'|].
  - cbn [fst snd mret M_ret]. intros [= ->]. split; [reflexivity|].
    destruct (fault w (CallListServices (Namespace (PodMeta pod)))) as [e0|].
    + congruence.
    + discriminate Hl.
  - destruct (negb b); discriminate.
Qed.

(** X11. The handler never releases on an error: an error comes with release =
    false, and the only error there is is the failure of the listing of the
    services of the pod's namespace. *)
Theorem HandleGracefulDrain_error_holds {C} `{finalizer.Config C}
    (d : finalizer.DrainHandler C) (pod : Pod) (w : World) (e : error) :
  snd (fst (finalizer.HandleGracefulDrain d pod w)) = Some e ->
  fst (fst (finalizer.HandleGracefulDrain d pod w)) = false /\
  fault w (CallListServices (Namespace (PodMeta pod))) = Some e.
Proof.
  unfold finalizer.HandleGracefulDrain.
  destruct (DeletionTimestamp (PodMeta pod)) as [t|]; [|discriminate].
  unfold mbind, M_bind, time.Since, client.Now, mbind, M_bind, mret, M_ret.
  destruct (_ <? _); [discriminate|].
  destruct (_ <? _); [discriminate|].
  destruct (_ || _); [discriminate|].
  destruct (negb _); [discriminate|].
  pose proof (checkActiveConnections_error pod (record CallNow w)) as Hp.
  destruct (finalizer.checkActiveConnections pod (record CallNow w)) as [[b err] w1].
  cbn [fst snd] in Hp. destruct err as [e'|].
  - cbn [fst snd]. intros [= ->]. split; [reflexivity|].
    destruct (Hp e eq_refl) as [_ Hf]. exact Hf.
  - destruct (negb b); discriminate.
Qed.

Lemma HandleGracefulDrain_error_holds_witness :
  fst (fst (finalizer.HandleGracefulDrain (finalizer.NewDrainHandler NewDefaultConfig)
              drain.pod (drain.world (60 * time.Second) drain.servicesUnlistable)))
  = false /\
  drain.servicesUnlistable (CallListServices "default") = Some drain.timeout.
Proof.
  apply (HandleGracefulDrain_error_holds (finalizer.NewDrainHandler NewDefaultConfig)
           drain.pod (drain.world (60 * time.Second) drain.servicesUnlistable)).
  vm_compute. reflexivity.
Defined.

(** X12. Once the grace period has passed, a pod that has finished (Succeeded or
    Failed) or that is not Ready is released without any look at services
    and endpoints, on either side of the drain timeout. *)
Theorem HandleGracefulDrain_releases_idle_pod {C} `{finalizer.Config C}
    (d : finalizer.DrainHandler C) (pod : Pod) (t : Z) (w : World) :
  DeletionTimestamp (PodMeta pod) = Some t ->
  finalizer.GetGracePeriod (finalizer.config d) <= time.Sub (clock w) t ->
  Phase (Status pod) = PodSucceeded \/ Phase (Status pod) = PodFailed \/
  finalizer.isPodReady pod = false ->
  finalizer.HandleGracefulDrain d pod w = ((true, None), record CallNow w).
Proof.
  intros Ht Hgr Hidle. unfold finalizer.HandleGracefulDrain. rewrite Ht.
  unfold mbind, M_bind, time.Since, client.Now, mbind, M_bind, mret, M_ret.
  cbn [clock record].
  apply Z.ltb_ge in Hgr. rewrite Hgr. clear Hgr.
  destruct (finalizer.GetDrainTimeout (finalizer.config d) <? time.Sub (clock w) t);
    [reflexivity|].
  destruct Hidle as [-> | [-> | Hr]]; try reflexivity.
  rewrite Hr. destruct (_ || _); reflexivity.
Qed.

Lemma HandleGracefulDrain_releases_idle_pod_witness :
  finalizer.HandleGracefulDrain (finalizer.NewDrainHandler NewDefaultConfig) unguarded.pod
    (drain.world (60 * time.Second) drain.healthy)
  = ((true, None), record CallNow (drain.world (60 * time.Second) drain.healthy)).
Proof.
  apply (HandleGracefulDrain_releases_idle_pod (finalizer.NewDrainHandler NewDefaultConfig)
           unguarded.pod 0).
  - reflexivity.
  - discriminate.
  - right. right. reflexivity.
Defined.

Lemma scanServices_spec pod items :
  forall w,
    fst (fst (finalizer.scanServices pod (PodIP (Status pod)) items w)) = true <->
    exists service, In service items /\ targets w pod service.
Proof.
  induction items as [|service rest IH]; intros w; simpl.
  - split; [discriminate | intros (s & [] & _)].
  - assert (forall c,
      fst (fst (finalizer.scanServices pod (PodIP (Status pod)) rest (record c w))) = true <->
      exists s, In s rest /\ targets w pod s) as IHc.
    { intros c. apply (IH (record c w)). }
    assert (~ targets w pod service ->
            (exists s, In s rest /\ targets w pod s) <->
            (exists s, (service = s \/ In s rest) /\ targets w pod s)) as Hskip.
    { intros Hno. split.
      - intros (s & Hin & Ht). exists s. tauto.
      - intros (s & [<-|Hin] & Ht); [tauto|]. exists s. tauto. }
    destruct (ServiceSelector service) as [selector|] eqn:Hsel.
    2:{ rewrite IH. apply Hskip. intros (sel & e & Hs & _). congruence. }
    destruct (labels.Matches selector (Labels (PodMeta pod))) eqn:Hm.
    2:{ rewrite IH. apply Hskip. intros (sel & e & Hs & Hm' & _). congruence. }
    unfold mbind, M_bind, client.GetEndpoints, client.get.
    destruct (fault w (CallGet KEndpoints (Namespace (ServiceMeta service))
                         (Name (ServiceMeta service)))) as [err|] eqn:Hf.
    { rewrite IHc. apply Hskip. intros (sel & e & _ & _ & Hf' & _). congruence. }
    destruct (endpoints w !! (Namespace (ServiceMeta service), Name (ServiceMeta service)))
      as [e|] eqn:He.
    2:{ rewrite IHc. apply Hskip. intros (sel & e & _ & _ & _ & He' & _). congruence. }
    destruct (finalizer.hasAddress e (PodIP (Status pod))) eqn:Ha.
    + cbn [fst snd mret M_ret]. split; [|reflexivity]. intros _.
      exists service. split; [left; reflexivity|].
      exists selector, e. repeat split; assumption.
    + rewrite IHc. apply Hskip.
      intros (sel & e' & _ & _ & _ & He' & Ha'). congruence.
Qed.

Lemma In_InNamespace namespace items (s : Service) :
  In s (client.InNamespace namespace items) <->
  In s items /\ (namespace = "" \/ Namespace (ServiceMeta s) = namespace).
Proof.
  unfold client.InNamespace. destruct (String.eqb_spec namespace "") as [He|He].
  - tauto.
  - split.
    + intros Hin. apply list_elem_of_In, list_elem_of_filter in Hin as [Hns Hin].
      apply list_elem_of_In in Hin. tauto.
    + intros [Hin [Hns|Hns]]; [contradiction|].
      apply list_elem_of_In, list_elem_of_filter. split; [exact Hns|].
      apply list_elem_of_In. exact Hin.
Qed.

Lemma checkPodEndpoints_targets (pod : Pod) (w : World) :
  fault w (CallListServices (Namespace (PodMeta pod))) = None ->
  snd (fst (finalizer.checkPodEndpoints pod w)) = None /\
  (fst (fst (finalizer.checkPodEndpoints pod w)) = true <->
   PodIP (Status pod) <> "" /\
   exists service,
     In service (services w) /\
     (Namespace (PodMeta pod) = "" \/
      Namespace (ServiceMeta service) = Namespace (PodMeta pod)) /\
     targets w pod service).
Proof.
  intros Hf. split.
  { pose proof (checkPodEndpoints_list_error pod w) as Hl. rewrite Hf in Hl. exact Hl. }
  unfold finalizer.checkPodEndpoints, mbind, M_bind, client.ListServices.
  rewrite Hf.
  destruct (String.eqb_spec (PodIP (Status pod)) "") as [Hip|Hip].
  - cbn [fst snd mret M_ret]. split; [discriminate | tauto].
  - rewrite scanServices_spec. split.
    + intros (s & Hin & Ht). split; [exact Hip|]. exists s.
      apply In_InNamespace in Hin. tauto.
    + intros (_ & s & Hin & Hns & Ht). exists s. split; [|exact Ht].
      apply In_InNamespace. tauto.
Qed.

(** X13. When the services can be listed, checkPodEndpoints returns no error, and
    it returns true exactly when the pod has an address and some service the
    listing covers (the services of the pod's namespace, or every service
    when the pod's namespace is empty) selects the pod and has readable
    endpoints that list the address. *)
Theorem checkPodEndpoints_spec (pod : Pod) (w : World) :
  fault w (CallListServices (Namespace (PodMeta pod))) = None ->
  snd (fst (finalizer.checkPodEndpoints pod w)) = None /\
  (fst (fst (finalizer.checkPodEndpoints pod w)) = true <->
   PodIP (Status pod) <> "" /\
   exists service,
     In service (services w) /\
     (Namespace (PodMeta pod) = "" \/
      Namespace (ServiceMeta service) = Namespace (PodMeta pod)) /\
     targets w pod service).
Proof. apply checkPodEndpoints_targets. Qed.

(** With an empty namespace the listing covers every namespace: the pod is
    held on account of a service of another namespace. *)
Example empty_namespace_lists_all_services :
  fst (finalizer.checkPodEndpoints unscoped.pod (unscoped.world (60 * time.Second)))
  = (true, None) /\
  fst (finalizer.HandleGracefulDrain (finalizer.NewDrainHandler NewDefaultConfig)
         unscoped.pod (unscoped.world (60 * time.Second)))
  = (false, None).
Proof. split; vm_compute; reflexivity. Qed.

Lemma drain_pod_is_target :
  targets (drain.world (60 * time.Second) drain.healthy) drain.pod drain.service.
Proof.
  exists {[ "app" := "test" ]}, drain.serviceEndpoints.
  repeat split; vm_compute; reflexivity.
Qed.

Lemma checkPodEndpoints_spec_witness :
  fst (fst (finalizer.checkPodEndpoints drain.pod
              (drain.world (60 * time.Second) drain.healthy))) = true.
Proof.
  apply (proj2 (checkPodEndpoints_spec drain.pod
                  (drain.world (60 * time.Second) drain.healthy) eq_refl)).
  split; [discriminate|]. exists drain.service.
  split; [left; reflexivity|]. split; [right; reflexivity|]. exact drain_pod_is_target.
Defined.

Lemma checkActiveConnections_true pod w :
  fst (finalizer.checkActiveConnections pod w) = (true, None) ->
  Phase (Status pod) = PodRunning /\
  fst (finalizer.checkPodEndpoints pod w) = (true, None).
Proof.
  unfold finalizer.checkActiveConnections.
  destruct (String.eqb_spec (Phase (Status pod)) PodRunning) as [Hph|Hph];
    cbn [negb]; [|discriminate].
  destruct (_ =? 0); [discriminate|].
  destruct (negb _); [discriminate|].
  destruct (existsb _ _); [discriminate|].
  unfold mbind, M_bind.
  destruct (finalizer.checkPodEndpoints pod w) as [[b err] w1]. cbn [fst snd].
  destruct err; [discriminate|]. destruct b; cbn [negb fst mret M_ret]; [|discriminate].
  intros _. split; [exact Hph | reflexivity].
Qed.

(** X14. Once the grace period has passed, the handler holds a pod without error
    only up to the drain timeout and only while the pod is Running, Ready,
    has an address, and that address is listed in the readable endpoints of
    a service that selects it, among the services the listing covers (those
    of the pod's namespace, or all when that namespace is empty). *)
Theorem HandleGracefulDrain_holds_only_serving_pod {C} `{finalizer.Config C}
    (d : finalizer.DrainHandler C) (pod : Pod) (t : Z) (w : World) :
  DeletionTimestamp (PodMeta pod) = Some t ->
  finalizer.GetGracePeriod (finalizer.config d) <= time.Sub (clock w) t ->
  fst (finalizer.HandleGracefulDrain d pod w) = (false, None) ->
  time.Sub (clock w) t <= finalizer.GetDrainTimeout (finalizer.config d) /\
  Phase (Status pod) = PodRunning /\
  finalizer.isPodReady pod = true /\
  PodIP (Status pod) <> "" /\
  exists service,
    In service (services w) /\
    (Namespace (PodMeta pod) = "" \/
     Namespace (ServiceMeta service) = Namespace (PodMeta pod)) /\
    targets w pod service.
Proof.
  intros Ht Hgr. unfold finalizer.HandleGracefulDrain. rewrite Ht.
  unfold mbind, M_bind, time.Since, client.Now, mbind, M_bind, mret, M_ret.
  cbn [clock record].
  apply Z.ltb_ge in Hgr. rewrite Hgr. clear Hgr.
  destruct (Z.ltb_spec (finalizer.GetDrainTimeout (finalizer.config d))
              (time.Sub (clock w) t)) as [Hto|Hto]; [discriminate|].
  destruct (_ || _); [discriminate|].
  destruct (finalizer.isPodReady pod) eqn:Hready; cbn [negb]; [|discriminate].
  pose proof (checkActiveConnections_true pod (record CallNow w)) as Hp.
  pose proof (checkActiveConnections_error pod (record CallNow w)) as He.
  destruct (finalizer.checkActiveConnections pod (record CallNow w)) as [[b err] w1].
  cbn [fst snd] in *. destruct err as [e|]; [discriminate|].
  destruct b; cbn [negb fst]; [|discriminate]. intros _.
  destruct (Hp eq_refl) as [Hph Hep].
  assert (fault (record CallNow w) (CallListServices (Namespace (PodMeta pod))) = None)
    as Hf.
  { pose proof (checkPodEndpoints_list_error pod (record CallNow w)) as Hl.
    destruct (fault (record CallNow w) (CallListServices (Namespace (PodMeta pod))));
      [|reflexivity].
    rewrite Hep in Hl. discriminate Hl. }
  destruct (checkPodEndpoints_targets pod (record CallNow w) Hf) as [_ Hspec].
  rewrite Hep in Hspec. destruct (proj1 Hspec eq_refl) as [Hip Hsvc].
  repeat split; try assumption.
Qed.

Lemma HandleGracefulDrain_holds_only_serving_pod_witness :
  time.Sub (clock (drain.world (60 * time.Second) drain.healthy)) 0
  <= finalizer.GetDrainTimeout (finalizer.config (finalizer.NewDrainHandler NewDefaultConfig)) /\
  Phase (Status drain.pod) = PodRunning /\
  finalizer.isPodReady drain.pod = true /\
  PodIP (Status drain.pod) <> "" /\
  exists service,
    In service (services (drain.world (60 * time.Second) drain.healthy)) /\
    (Namespace (PodMeta drain.pod) = "" \/
     Namespace (ServiceMeta service) = Namespace (PodMeta drain.pod)) /\
    targets (drain.world (60 * time.Second) drain.healthy) drain.pod service.
Proof.
  apply (HandleGracefulDrain_holds_only_serving_pod
           (finalizer.NewDrainHandler NewDefaultConfig) drain.pod 0).
  - reflexivity.
  - discriminate.
  - vm_compute. reflexivity.
Defined.

(** ** Lifecycle guard *)

Lemma reads_fields w w' :
  reads w w' ->
  clock w' = clock w /\ pods w' = pods w /\ configMaps w' = configMaps w /\
  services w' = services w /\ endpoints w' = endpoints w /\ fault w' = fault w.
Proof. intros (l & -> & _). repeat split. Qed.



(** X16. While the grace period runs, handlePodDeletion on a guarded pod asks for
    a requeue after 10 seconds with no error, and all it does is read the
    clock. *)
Theorem handlePodDeletion_holds_in_grace_window (pod : Pod) (config : Config)
    (t : Z) (w : World) :
  In VPAGracefulDrainFinalizer (Finalizers (PodMeta pod)) ->
  DeletionTimestamp (PodMeta pod) = Some t ->
  time.Sub (clock w) t < GetGracePeriod config ->
  handlePodDeletion pod config w
  = ((requeueAfter (time.Second * 10), None), record CallNow w).
Proof.
  intros Hfin Ht Hlt. unfold handlePodDeletion, ContainsFinalizer.
  apply rangeFinds_In in Hfin. rewrite Hfin. cbn [negb].
  unfold mbind, M_bind, finalizer.HandleGracefulDrain. rewrite Ht.
  unfold mbind, M_bind, time.Since, client.Now, mbind, M_bind, mret, M_ret.
  cbn [clock record finalizer.config finalizer.GetGracePeriod Config_finalizer].
  apply Z.ltb_lt in Hlt. rewrite Hlt. reflexivity.
Qed.

Lemma handlePodDeletion_holds_in_grace_window_witness :
  handlePodDeletion drain.pod NewDefaultConfig (drain.world (10 * time.Second) drain.healthy)
  = ((requeueAfter (time.Second * 10), None),
     record CallNow (drain.world (10 * time.Second) drain.healthy)).
Proof.
  apply (handlePodDeletion_holds_in_grace_window drain.pod NewDefaultConfig 0).
  - left. reflexivity.
  - reflexivity.
  - reflexivity.
Defined.

(** X17. handlePodDeletion writes only on a release: unless the drain decision is
    release = true with no error, it makes no Update call and leaves every
    stored object as it was. *)
Theorem handlePodDeletion_writes_only_on_release (pod : Pod) (config : Config) (w : World) :
  fst (finalizer.HandleGracefulDrain (finalizer.NewDrainHandler config) pod w)
  <> (true, None) ->
  reads w (snd (handlePodDeletion pod config w)).
Proof.
  intros Hdec. unfold handlePodDeletion.
  destruct (negb _); [apply reads_refl|].
  unfold mbind, M_bind.
  pose proof (HandleGracefulDrain_reads (finalizer.NewDrainHandler config) pod w) as Hr.
  destruct (finalizer.HandleGracefulDrain (finalizer.NewDrainHandler config) pod w)
    as [[completed err] w1].
  cbn [fst snd] in *. destruct err as [e|]; [exact Hr|].
  destruct completed; cbn [negb]; [congruence | exact Hr].
Qed.

Lemma handlePodDeletion_writes_only_on_release_witness :
  reads (drain.world (60 * time.Second) drain.healthy)
        (snd (handlePodDeletion drain.pod NewDefaultConfig
                (drain.world (60 * time.Second) drain.healthy))).
Proof.
  apply handlePodDeletion_writes_only_on_release. vm_compute. discriminate.
Defined.

(** X18. When the drain decision fails, handlePodDeletion passes the error on
    with a requeue after 30 seconds and writes nothing. *)
Theorem handlePodDeletion_probe_error (pod : Pod) (config : Config) (w : World) (e : error) :
  In VPAGracefulDrainFinalizer (Finalizers (PodMeta pod)) ->
  snd (fst (finalizer.HandleGracefulDrain (finalizer.NewDrainHandler config) pod w))
  = Some e ->
  fst (handlePodDeletion pod config w) = (requeueAfter (time.Second * 30), Some e) /\
  reads w (snd (handlePodDeletion pod config w)).
Proof.
  intros Hfin Herr. unfold handlePodDeletion, ContainsFinalizer.
  apply rangeFinds_In in Hfin. rewrite Hfin. cbn [negb].
  unfold mbind, M_bind.
  pose proof (HandleGracefulDrain_reads (finalizer.NewDrainHandler config) pod w) as Hr.
  destruct (finalizer.HandleGracefulDrain (finalizer.NewDrainHandler config) pod w)
    as [[completed err] w1].
  cbn [fst snd] in *. subst err. split; [reflexivity | exact Hr].
Qed.

Lemma handlePodDeletion_probe_error_witness :
  fst (handlePodDeletion drain.pod NewDefaultConfig
         (drain.world (60 * time.Second) drain.servicesUnlistable))
  = (requeueAfter (time.Second * 30), Some drain.timeout) /\
  reads (drain.world (60 * time.Second) drain.servicesUnlistable)
        (snd (handlePodDeletion drain.pod NewDefaultConfig
                (drain.world (60 * time.Second) drain.servicesUnlistable))).
Proof.
  apply handlePodDeletion_probe_error.
  - left. reflexivity.
  - vm_compute. reflexivity.
Defined.



(** Releasing the serving pod, whose only finalizer is the guard marker,
    leaves no pod behind. *)
Example released_pod_is_gone :
  pods (snd (handlePodDeletion drain.pod NewDefaultConfig
               (drain.world (400 * time.Second) drain.healthy)))
  !! ("default", "test-pod") = None.
Proof. vm_compute. reflexivity. Qed.

(** X20. On a release, when the Update fails, nothing is stored: a conflict is
    answered with a requeue after 100 milliseconds and no error, any other
    failure is returned as the error. *)
Theorem handlePodDeletion_update_fails (pod : Pod) (config : Config) (w : World) (e : error) :
  In VPAGracefulDrainFinalizer (Finalizers (PodMeta pod)) ->
  fst (finalizer.HandleGracefulDrain (finalizer.NewDrainHandler config) pod w)
  = (true, None) ->
  fault w (CallUpdate (RemoveFinalizer pod VPAGracefulDrainFinalizer)) = Some e ->
  fst (handlePodDeletion pod config w)
  = (if IsConflict e then (requeueAfter (time.Millisecond * 100), None)
     else (noRequeue, Some e)) /\
  pods (snd (handlePodDeletion pod config w)) = pods w.
Proof.
  intros Hfin Hdec Hf. unfold handlePodDeletion, ContainsFinalizer.
  apply rangeFinds_In in Hfin. rewrite Hfin. cbn [negb].
  unfold mbind, M_bind.
  pose proof (HandleGracefulDrain_reads (finalizer.NewDrainHandler config) pod w) as Hr.
  destruct (finalizer.HandleGracefulDrain (finalizer.NewDrainHandler config) pod w)
    as [[completed err] w1].
  cbn [fst snd] in *. injection Hdec as -> ->. cbn [negb].
  apply reads_fields in Hr as (_ & Hp & _ & _ & _ & Hfl).
  unfold client.Update. rewrite Hfl, Hf.
  destruct (IsConflict e); cbn [fst snd pods record]; split; try reflexivity; exact Hp.
Qed.

Lemma handlePodDeletion_update_fails_witness :
  fst (handlePodDeletion drain.pod NewDefaultConfig
         (drain.world (400 * time.Second) conflictOnUpdate))
  = (requeueAfter (time.Millisecond * 100), None) /\
  pods (snd (handlePodDeletion drain.pod NewDefaultConfig
               (drain.world (400 * time.Second) conflictOnUpdate)))
  = pods (drain.world (400 * time.Second) conflictOnUpdate).
Proof.
  apply (handlePodDeletion_update_fails drain.pod NewDefaultConfig
           (drain.world (400 * time.Second) conflictOnUpdate)
           (StatusError ReasonConflict)).
  - left. reflexivity.
  - reflexivity.
  - reflexivity.
Defined.

(** ** Reconcile *)

Lemma getConfig_reads u r w : reads w (snd (getConfig u r w)).
Proof.
  unfold getConfig, mbind, M_bind, client.GetConfigMap, client.get.
  set (c := CallGet _ _ _).
  destruct (fault w c) as [err|].
  - destruct (IsNotFound err); apply reads_record; reflexivity.
  - destruct (configMaps w !! _); [|apply reads_record; reflexivity].
    apply reads_record. reflexivity.
Qed.

Lemma getConfig_stable u r w w' :
  fault w' = fault w -> configMaps w' = configMaps w ->
  fst (getConfig u r w') = fst (getConfig u r w).
Proof.
  intros Hf Hc.
  unfold getConfig, mbind, M_bind, client.GetConfigMap, client.get.
  rewrite Hf, Hc.
  destruct (fault w _) as [err|].
  - destruct (IsNotFound err); reflexivity.
  - destruct (configMaps w !! _); reflexivity.
Qed.

Lemma shouldManagePod_setFinalizers pod fs config :
  shouldManagePod (setFinalizers pod fs) config = shouldManagePod pod config.
Proof. reflexivity. Qed.

(** X21. When the pod cannot be read, Reconcile stops after that one call: a pod
    that is not found is no error and asks for no requeue, any other failure
    is returned. *)
Theorem Reconcile_pod_unreadable u r (namespace name : string) (w : World) (err : error) :
  fst (client.GetPod namespace name w) = inl err ->
  Reconcile u r namespace name w
  = ((noRequeue, if IsNotFound err then None else Some err),
     record (CallGet KPod namespace name) w).
Proof.
  unfold Reconcile, mbind, M_bind.
  destruct (client.GetPod namespace name w) as [res w1] eqn:Hget.
  cbn [fst]. intros ->.
  assert (w1 = record (CallGet KPod namespace name) w) as ->.
  { unfold client.GetPod, client.get in Hget. injection Hget as _ <-. reflexivity. }
  destruct (IsNotFound err); reflexivity.
Qed.

Lemma Reconcile_pod_unreadable_witness :
  Reconcile noDecoder live.reconciler "default" "gone" live.world
  = ((noRequeue, None), record (CallGet KPod "default" "gone") live.world).
Proof.
  apply (Reconcile_pod_unreadable noDecoder live.reconciler "default" "gone" live.world
           notFound).
  reflexivity.
Defined.

(** Reconcile from the point where the pod has been read. *)
Lemma Reconcile_on_pod u r namespace name w pod :
  fault w (CallGet KPod namespace name) = None ->
  pods w !! (namespace, name) = Some pod ->
  Reconcile u r namespace name w
  = (let w1 := record (CallGet KPod namespace name) w in
     let '(cfg, w2) := getConfig u r w1 in
     match cfg with
     | inl err => ((requeueAfter (time.Minute * 5), Some err), w2)
     | inr config =>
         if negb (shouldManagePod pod config) then ((noRequeue, None), w2)
         else if bool_decide (DeletionTimestamp (PodMeta pod) <> None)
         then handlePodDeletion pod config w2
         else if shouldAddFinalizer pod then
           let '(err, w3) :=
             client.Update (AddFinalizer pod VPAGracefulDrainFinalizer) w2 in
           match err with
           | Some e =>
               if IsConflict e then ((requeueAfter (time.Millisecond * 100), None), w3)
               else ((noRequeue, Some e), w3)
           | None => ((noRequeue, None), w3)
           end
         else ((noRequeue, None), w2)
     end).
Proof.
  intros Hf Hp. unfold Reconcile, mbind, M_bind, client.GetPod, client.get.
  rewrite Hf, Hp. cbv zeta.
  destruct (getConfig u r (record (CallGet KPod namespace name) w)) as [[err|config] w2];
    [reflexivity|].
  destruct (negb (shouldManagePod pod config)); [reflexivity|].
  destruct (bool_decide (DeletionTimestamp (PodMeta pod) <> None)); [reflexivity|].
  destruct (shouldAddFinalizer pod); [|reflexivity].
  destruct (client.Update (AddFinalizer pod VPAGracefulDrainFinalizer) w2) as [[e|] w3];
    [|reflexivity].
  destruct (IsConflict e); reflexivity.
Qed.

Lemma getConfig_after_read u r c w :
  isRead c = true ->
  getConfig u r (record c w)
  = (fst (getConfig u r w), snd (getConfig u r (record c w))) /\
  reads w (snd (getConfig u r (record c w))).
Proof.
  intros Hc. split.
  - rewrite <- (getConfig_stable u r w (record c w) eq_refl eq_refl).
    destruct (getConfig u r (record c w)); reflexivity.
  - apply (reads_after c); [exact Hc | apply getConfig_reads].
Qed.

(** X22. When the configuration cannot be obtained (the ConfigMap cannot be read,
    or it is rejected by the validator), Reconcile returns that error with a
    requeue after 5 minutes and leaves the pod as it is: no default
    configuration steps in. *)
Theorem Reconcile_config_error u r (namespace name : string) (w : World)
    (pod : Pod) (err : error) :
  fault w (CallGet KPod namespace name) = None ->
  pods w !! (namespace, name) = Some pod ->
  fst (getConfig u r w) = inl err ->
  fst (Reconcile u r namespace name w) = (requeueAfter (time.Minute * 5), Some err) /\
  reads w (snd (Reconcile u r namespace name w)).
Proof.
  intros Hf Hp Hcfg. rewrite (Reconcile_on_pod u r namespace name w pod Hf Hp). cbv zeta.
  destruct (getConfig_after_read u r (CallGet KPod namespace name) w eq_refl) as [Heq Hr].
  rewrite Heq, Hcfg. split; [reflexivity | exact Hr].
Qed.

Lemma Reconcile_config_error_witness :
  fst (Reconcile noDecoder live.reconciler "default" "test-pod" invalidConfigWorld)
  = (requeueAfter (time.Minute * 5),
     Some (Errorf "invalid gracePeriodSeconds: %v"
                  [ArgError (NumError "ParseInt" "invalid" ErrSyntax)])) /\
  reads invalidConfigWorld
        (snd (Reconcile noDecoder live.reconciler "default" "test-pod" invalidConfigWorld)).
Proof.
  apply (Reconcile_config_error noDecoder live.reconciler "default" "test-pod"
           invalidConfigWorld live.pod).
  - reflexivity.
  - reflexivity.
  - reflexivity.
Defined.

(** X23. A pod that shouldManagePod turns down is left alone: Reconcile returns
    the zero Result and no error and writes nothing. *)
Theorem Reconcile_unmanaged u r (namespace name : string) (w : World)
    (pod : Pod) (config : Config) :
  fault w (CallGet KPod namespace name) = None ->
  pods w !! (namespace, name) = Some pod ->
  fst (getConfig u r w) = inr config ->
  shouldManagePod pod config = false ->
  fst (Reconcile u r namespace name w) = (noRequeue, None) /\
  reads w (snd (Reconcile u r namespace name w)).
Proof.
  intros Hf Hp Hcfg Hm. rewrite (Reconcile_on_pod u r namespace name w pod Hf Hp). cbv zeta.
  destruct (getConfig_after_read u r (CallGet KPod namespace name) w eq_refl) as [Heq Hr].
  rewrite Heq, Hcfg, Hm. split; [reflexivity | exact Hr].
Qed.

Lemma Reconcile_unmanaged_witness :
  fst (Reconcile noDecoder live.reconciler "default" "plain" plainWorld)
  = (noRequeue, None) /\
  reads plainWorld (snd (Reconcile noDecoder live.reconciler "default" "plain" plainWorld)).
Proof.
  apply (Reconcile_unmanaged noDecoder live.reconciler "default" "plain" plainWorld
           plainPod NewDefaultConfig).
  - reflexivity.
  - reflexivity.
  - reflexivity.
  - reflexivity.
Defined.

Lemma Reconcile_add u r namespace name w pod config :
  fault w (CallGet KPod namespace name) = None ->
  pods w !! (namespace, name) = Some pod ->
  Namespace (PodMeta pod) = namespace ->
  Name (PodMeta pod) = name ->
  fst (getConfig u r w) = inr config ->
  shouldManagePod pod config = true ->
  DeletionTimestamp (PodMeta pod) = None ->
  ~ In VPAGracefulDrainFinalizer (Finalizers (PodMeta pod)) ->
  fault w (CallUpdate (setFinalizers pod
                         (Finalizers (PodMeta pod) ++ [VPAGracefulDrainFinalizer])%list))
  = None ->
  exists w2,
    reads w w2 /\
    Reconcile u r namespace name w
    = ((noRequeue, None),
       store (setFinalizers pod (Finalizers (PodMeta pod) ++ [VPAGracefulDrainFinalizer])%list)
         (record (CallUpdate (setFinalizers pod
                    (Finalizers (PodMeta pod) ++ [VPAGracefulDrainFinalizer])%list)) w2)).
Proof.
  intros Hf Hp Hns Hname Hcfg Hm Hd Hfin Hu.
  rewrite (Reconcile_on_pod u r namespace name w pod Hf Hp). cbv zeta.
  destruct (getConfig_after_read u r (CallGet KPod namespace name) w eq_refl) as [Heq Hr].
  rewrite Heq, Hcfg, Hm, Hd. cbn [negb].
  rewrite bool_decide_eq_false_2 by (intros Hne; apply Hne; reflexivity).
  apply rangeFinds_not_In in Hfin.
  unfold shouldAddFinalizer, AddFinalizer, ContainsFinalizer. rewrite Hfin. cbn [negb].
  set (w2 := snd (getConfig u r (record (CallGet KPod namespace name) w))) in *.
  exists w2. split; [exact Hr|].
  apply reads_fields in Hr as (_ & Hpods & _ & _ & _ & Hfl).
  unfold client.Update. rewrite Hfl, Hu.
  change (Namespace (PodMeta (setFinalizers pod _))) with (Namespace (PodMeta pod)).
  change (Name (PodMeta (setFinalizers pod _))) with (Name (PodMeta pod)).
  rewrite Hpods, Hns, Hname, Hp. unfold commit.
  change (DeletionTimestamp (PodMeta (setFinalizers pod _)))
    with (DeletionTimestamp (PodMeta pod)).
  rewrite Hd, bool_decide_eq_false_2 by (intros Hne; apply Hne; reflexivity).
  reflexivity.
Qed.

(** X24. On a managed pod that is alive and does not bear the guard marker,
    when the Update goes through, Reconcile stores the pod with the marker
    appended to its finalizer list, everything else on it unchanged, and
    returns the zero Result and no error. *)
Theorem Reconcile_adds_guard u r (namespace name : string) (w : World)
    (pod : Pod) (config : Config) :
  fault w (CallGet KPod namespace name) = None ->
  pods w !! (namespace, name) = Some pod ->
  Namespace (PodMeta pod) = namespace ->
  Name (PodMeta pod) = name ->
  fst (getConfig u r w) = inr config ->
  shouldManagePod pod config = true ->
  DeletionTimestamp (PodMeta pod) = None ->
  ~ In VPAGracefulDrainFinalizer (Finalizers (PodMeta pod)) ->
  fault w (CallUpdate (setFinalizers pod
                         (Finalizers (PodMeta pod) ++ [VPAGracefulDrainFinalizer])%list))
  = None ->
  fst (Reconcile u r namespace name w) = (noRequeue, None) /\
  pods (snd (Reconcile u r namespace name w))
  = <[(namespace, name) :=
        setFinalizers pod (Finalizers (PodMeta pod) ++ [VPAGracefulDrainFinalizer])%list]>
      (pods w).
Proof.
  intros Hf Hp Hns Hname Hcfg Hm Hd Hfin Hu.
  destruct (Reconcile_add u r namespace name w pod config Hf Hp Hns Hname Hcfg Hm Hd Hfin Hu)
    as (w2 & Hr & ->).
  split; [reflexivity|].
  apply reads_fields in Hr as (_ & Hpods & _).
  cbn [snd]. unfold store. cbn [pods record PodMeta setFinalizers Namespace Name].
  rewrite Hpods, Hns, Hname. reflexivity.
Qed.

Lemma live_pod_unguarded :
  ~ In VPAGracefulDrainFinalizer (Finalizers (PodMeta live.pod)).
Proof. simpl. intros [H|[]]. discriminate H. Qed.

Lemma Reconcile_adds_guard_witness :
  fst (Reconcile noDecoder live.reconciler "default" "test-pod" live.world)
  = (noRequeue, None) /\
  pods (snd (Reconcile noDecoder live.reconciler "default" "test-pod" live.world))
  = <[("default", "test-pod") :=
        setFinalizers live.pod
          (Finalizers (PodMeta live.pod) ++ [VPAGracefulDrainFinalizer])%list]>
      (pods live.world).
Proof.
  apply (Reconcile_adds_guard noDecoder live.reconciler "default" "test-pod" live.world
           live.pod NewDefaultConfig); try reflexivity.
  exact live_pod_unguarded.
Defined.

(** X25. After Reconcile has guarded a pod, a second Reconcile of the same pod
    in the world the first one left changes nothing: it returns the zero
    Result and no error and makes no Update. *)
Theorem Reconcile_second_pass_is_idle u r (namespace name : string) (w : World)
    (pod : Pod) (config : Config) :
  fault w (CallGet KPod namespace name) = None ->
  pods w !! (namespace, name) = Some pod ->
  Namespace (PodMeta pod) = namespace ->
  Name (PodMeta pod) = name ->
  fst (getConfig u r w) = inr config ->
  shouldManagePod pod config = true ->
  DeletionTimestamp (PodMeta pod) = None ->
  ~ In VPAGracefulDrainFinalizer (Finalizers (PodMeta pod)) ->
  fault w (CallUpdate (setFinalizers pod
                         (Finalizers (PodMeta pod) ++ [VPAGracefulDrainFinalizer])%list))
  = None ->
  fst (Reconcile u r namespace name (snd (Reconcile u r namespace name w)))
  = (noRequeue, None) /\
  reads (snd (Reconcile u r namespace name w))
        (snd (Reconcile u r namespace name (snd (Reconcile u r namespace name w)))).
Proof.
  intros Hf Hp Hns Hname Hcfg Hm Hd Hfin Hu.
  destruct (Reconcile_add u r namespace name w pod config Hf Hp Hns Hname Hcfg Hm Hd Hfin Hu)
    as (w2 & Hr & ->).
  cbn [snd].
  set (guarded := setFinalizers pod _).
  set (w' := store guarded (record (CallUpdate guarded) w2)).
  apply reads_fields in Hr as (_ & Hpods & Hcms & _ & _ & Hfl).
  assert (fault w' = fault w) as Hfl' by exact Hfl.
  assert (configMaps w' = configMaps w) as Hcms' by exact Hcms.
  assert (pods w' !! (namespace, name) = Some guarded) as Hp'.
  { unfold w', store. cbn [pods record].
    change (Namespace (PodMeta guarded)) with (Namespace (PodMeta pod)).
    change (Name (PodMeta guarded)) with (Name (PodMeta pod)).
    rewrite Hns, Hname. apply lookup_insert_eq. }
  assert (fault w' (CallGet KPod namespace name) = None) as Hf'
    by (rewrite Hfl'; exact Hf).
  rewrite (Reconcile_on_pod u r namespace name w' guarded Hf' Hp'). cbv zeta.
  destruct (getConfig_after_read u r (CallGet KPod namespace name) w' eq_refl) as [Heq Hr'].
  rewrite Heq, (getConfig_stable u r w w' Hfl' Hcms'), Hcfg.
  assert (shouldManagePod guarded config = true) as ->
    by (unfold guarded; rewrite shouldManagePod_setFinalizers; exact Hm).
  cbn [negb].
  change (DeletionTimestamp (PodMeta guarded)) with (DeletionTimestamp (PodMeta pod)).
  rewrite Hd, bool_decide_eq_false_2 by (intros Hne; apply Hne; reflexivity).
  assert (shouldAddFinalizer guarded = false) as ->.
  { unfold shouldAddFinalizer, ContainsFinalizer, guarded, setFinalizers.
    cbn [PodMeta Finalizers].
    assert (rangeFinds (Finalizers (PodMeta pod) ++ [VPAGracefulDrainFinalizer])%list
              VPAGracefulDrainFinalizer = true) as ->; [|reflexivity].
    apply rangeFinds_In, in_or_app. right. left. reflexivity. }
  split; [reflexivity | exact Hr'].
Qed.

Lemma Reconcile_second_pass_is_idle_witness :
  fst (Reconcile noDecoder live.reconciler "default" "test-pod"
         (snd (Reconcile noDecoder live.reconciler "default" "test-pod" live.world)))
  = (noRequeue, None) /\
  reads (snd (Reconcile noDecoder live.reconciler "default" "test-pod" live.world))
        (snd (Reconcile noDecoder live.reconciler "default" "test-pod"
                (snd (Reconcile noDecoder live.reconciler "default" "test-pod" live.world)))).
Proof.
  apply (Reconcile_second_pass_is_idle noDecoder live.reconciler "default" "test-pod"
           live.world live.pod NewDefaultConfig); try reflexivity.
  exact live_pod_unguarded.
Defined.

Lemma finalizersStep_reads namespace name w w' :
  reads w w' -> finalizersStep namespace name w w'.
Proof.
  intros Hr. apply reads_fields in Hr as (Hc & Hp & Hcm & Hs & He & Hf).
  repeat split; try assumption. left. exact Hp.
Qed.

Lemma Update_step pod fs w w1 :
  reads w w1 ->
  pods w !! (Namespace (PodMeta pod), Name (PodMeta pod)) = Some pod ->
  (fs = [] -> DeletionTimestamp (PodMeta pod) <> None ->
   forall g, In g (Finalizers (PodMeta pod)) -> g = VPAGracefulDrainFinalizer) ->
  finalizersStep (Namespace (PodMeta pod)) (Name (PodMeta pod)) w
    (snd (client.Update (setFinalizers pod fs) w1)).
Proof.
  intros Hr Hp Hlast. unfold client.Update.
  set (c := CallUpdate _).
  assert (finalizersStep (Namespace (PodMeta pod)) (Name (PodMeta pod)) w (record c w1))
    as Hfail.
  { pose proof (reads_fields _ _ Hr) as (Hc & Hpods & Hcm & Hs & He & Hf).
    repeat split; try assumption. left. exact Hpods. }
  destruct (fault w1 c); [exact Hfail|].
  change (Namespace (PodMeta (setFinalizers pod fs))) with (Namespace (PodMeta pod)).
  change (Name (PodMeta (setFinalizers pod fs))) with (Name (PodMeta pod)).
  destruct (pods w1 !! _); [|exact Hfail].
  pose proof (reads_fields _ _ Hr) as (Hc & Hpods & Hcm & Hs & He & Hf).
  cbn [snd]. unfold commit.
  change (DeletionTimestamp (PodMeta (setFinalizers pod fs)))
    with (DeletionTimestamp (PodMeta pod)).
  change (Finalizers (PodMeta (setFinalizers pod fs))) with fs.
  destruct (bool_decide_reflect (DeletionTimestamp (PodMeta pod) <> None)) as [Hdel|Hdel];
    cbn [andb].
  - destruct fs as [|g gs]; cbn [length Z.of_nat Z.eqb].
    + repeat split; try assumption. right. exists pod. split; [exact Hp|]. right.
      split; [exact Hdel|]. split; [exact (Hlast eq_refl Hdel)|].
      unfold remove. cbn [pods record].
      change (Namespace (PodMeta (setFinalizers pod []))) with (Namespace (PodMeta pod)).
      change (Name (PodMeta (setFinalizers pod []))) with (Name (PodMeta pod)).
      rewrite Hpods. reflexivity.
    + repeat split; try assumption. right. exists pod. split; [exact Hp|]. left.
      exists (g :: gs). unfold store. cbn [pods record].
      change (Namespace (PodMeta (setFinalizers pod (g :: gs))))
        with (Namespace (PodMeta pod)).
      change (Name (PodMeta (setFinalizers pod (g :: gs)))) with (Name (PodMeta pod)).
      rewrite Hpods. reflexivity.
  - repeat split; try assumption. right. exists pod. split; [exact Hp|]. left.
    exists fs. unfold store. cbn [pods record].
    change (Namespace (PodMeta (setFinalizers pod fs))) with (Namespace (PodMeta pod)).
    change (Name (PodMeta (setFinalizers pod fs))) with (Name (PodMeta pod)).
    rewrite Hpods. reflexivity.
Qed.

Lemma filter_nil_all_marker (l : list string) (f : string) :
  List.filter (fun x => negb (String.eqb x f)) l = [] ->
  forall g, In g l -> g = f.
Proof.
  intros Hnil g Hin. destruct (String.eqb_spec g f) as [He|Hne]; [exact He|].
  assert (In g (List.filter (fun x => negb (String.eqb x f)) l)) as Hg.
  { apply filter_In. split; [exact Hin|].
    destruct (String.eqb_spec g f); [contradiction | reflexivity]. }
  rewrite Hnil in Hg. destruct Hg.
Qed.

Lemma handlePodDeletion_step pod config w w1 :
  reads w w1 ->
  pods w !! (Namespace (PodMeta pod), Name (PodMeta pod)) = Some pod ->
  finalizersStep (Namespace (PodMeta pod)) (Name (PodMeta pod)) w
    (snd (handlePodDeletion pod config w1)).
Proof.
  intros Hr Hp. unfold handlePodDeletion.
  destruct (negb _); [apply finalizersStep_reads; exact Hr|].
  unfold mbind, M_bind.
  pose proof (HandleGracefulDrain_reads (finalizer.NewDrainHandler config) pod w1) as Hd.
  destruct (finalizer.HandleGracefulDrain (finalizer.NewDrainHandler config) pod w1)
    as [[completed err] w2].
  cbn [snd] in Hd. pose proof (reads_trans _ _ _ Hr Hd) as Hr2.
  destruct err as [e|]; [apply finalizersStep_reads; exact Hr2|].
  destruct completed; cbn [negb]; [|apply finalizersStep_reads; exact Hr2].
  pose proof (Update_step pod
                (List.filter (fun x => negb (String.eqb x VPAGracefulDrainFinalizer))
                   (Finalizers (PodMeta pod))) w w2 Hr2 Hp
                (fun Hnil _ => filter_nil_all_marker _ _ Hnil)) as Hu.
  fold (RemoveFinalizer pod VPAGracefulDrainFinalizer) in Hu.
  destruct (client.Update (RemoveFinalizer pod VPAGracefulDrainFinalizer) w2)
    as [[e|] w3]; cbn [snd] in *.
  - destruct (IsConflict e); exact Hu.
  - exact Hu.
Qed.

(** X26. Whatever path it takes, Reconcile of the pod (namespace, name) leaves
    the clock, the ConfigMaps, the services, the endpoints and every other
    pod as they were; the pod itself is left as it was, or stored again with
    nothing but its finalizer list changed, or, when it is in deletion and
    bears no finalizer but the guard marker, gone. *)
Theorem Reconcile_touches_only_the_finalizers u r (namespace name : string) (w : World) :
  wellKeyed w ->
  finalizersStep namespace name w (snd (Reconcile u r namespace name w)).
Proof.
  intros Hwk.
  destruct (fault w (CallGet KPod namespace name)) as [err|] eqn:Hf.
  { apply finalizersStep_reads.
    unfold Reconcile, mbind, M_bind, client.GetPod, client.get. rewrite Hf.
    destruct (IsNotFound err); apply reads_record; reflexivity. }
  destruct (pods w !! (namespace, name)) as [pod|] eqn:Hp.
  2:{ apply finalizersStep_reads.
      unfold Reconcile, mbind, M_bind, client.GetPod, client.get. rewrite Hf, Hp.
      apply reads_record. reflexivity. }
  destruct (Hwk namespace name pod Hp) as [Hns Hname].
  rewrite (Reconcile_on_pod u r namespace name w pod Hf Hp). cbv zeta.
  destruct (getConfig_after_read u r (CallGet KPod namespace name) w eq_refl) as [_ Hr].
  destruct (getConfig u r (record (CallGet KPod namespace name) w)) as [[err|config] w2].
  { apply finalizersStep_reads. exact Hr. }
  cbn [snd] in Hr.
  destruct (negb (shouldManagePod pod config)); [apply finalizersStep_reads; exact Hr|].
  rewrite <- Hns, <- Hname in Hp |- *.
  destruct (bool_decide (DeletionTimestamp (PodMeta pod) <> None)).
  { apply handlePodDeletion_step; assumption. }
  unfold shouldAddFinalizer, AddFinalizer.
  destruct (ContainsFinalizer pod VPAGracefulDrainFinalizer); cbn [negb];
    [apply finalizersStep_reads; exact Hr|].
  assert ((Finalizers (PodMeta pod) ++ [VPAGracefulDrainFinalizer])%list = [] ->
          DeletionTimestamp (PodMeta pod) <> None ->
          forall g, In g (Finalizers (PodMeta pod)) -> g = VPAGracefulDrainFinalizer)
    as Hlast.
  { intros Hnil. destruct (Finalizers (PodMeta pod)); discriminate Hnil. }
  pose proof (Update_step pod (Finalizers (PodMeta pod) ++ [VPAGracefulDrainFinalizer])%list
                w w2 Hr Hp Hlast) as Hu.
  destruct (client.Update _ w2) as [[e|] w3]; cbn [snd] in *.
  - destruct (IsConflict e); exact Hu.
  - exact Hu.
Qed.

Lemma live_world_wellKeyed : wellKeyed live.world.
Proof.
  intros namespace name pod Hl. unfold live.world in Hl. cbn [pods] in Hl.
  apply lookup_singleton_Some in Hl as [[= <- <-] <-]. split; reflexivity.
Qed.

Lemma drain_world_wellKeyed now : wellKeyed (drain.world now drain.healthy).
Proof.
  intros namespace name pod Hl. unfold drain.world in Hl. cbn [pods] in Hl.
  apply lookup_singleton_Some in Hl as [[= <- <-] <-]. split; reflexivity.
Qed.

Lemma Reconcile_touches_only_the_finalizers_witness :
  finalizersStep "default" "test-pod" live.world
    (snd (Reconcile noDecoder live.reconciler "default" "test-pod" live.world)) /\
  finalizersStep "default" "test-pod" (drain.world (400 * time.Second) drain.healthy)
    (snd (Reconcile noDecoder live.reconciler "default" "test-pod"
            (drain.world (400 * time.Second) drain.healthy))).
Proof.
  split.
  - apply Reconcile_touches_only_the_finalizers. exact live_world_wellKeyed.
  - apply Reconcile_touches_only_the_finalizers. apply drain_world_wellKeyed.
Defined.

(** X27. Reconcile never puts the guard marker on a pod that is already being
    deleted: on a stored pod with a deletion timestamp and without the
    marker it writes nothing, whatever the configuration and the pod's
    signals. *)
Theorem Reconcile_never_guards_deleting_pod u r (namespace name : string) (w : World)
    (pod : Pod) (t : Z) :
  pods w !! (namespace, name) = Some pod ->
  DeletionTimestamp (PodMeta pod) = Some t ->
  ~ In VPAGracefulDrainFinalizer (Finalizers (PodMeta pod)) ->
  reads w (snd (Reconcile u r namespace name w)).
Proof.
  intros Hp Hd Hfin.
  destruct (fault w (CallGet KPod namespace name)) as [err|] eqn:Hf.
  { unfold Reconcile, mbind, M_bind, client.GetPod, client.get. rewrite Hf.
    destruct (IsNotFound err); apply reads_record; reflexivity. }
  rewrite (Reconcile_on_pod u r namespace name w pod Hf Hp). cbv zeta.
  destruct (getConfig_after_read u r (CallGet KPod namespace name) w eq_refl) as [_ Hr].
  destruct (getConfig u r (record (CallGet KPod namespace name) w)) as [[err|config] w2].
  { exact Hr. }
  cbn [snd] in Hr.
  destruct (negb (shouldManagePod pod config)); [exact Hr|].
  rewrite Hd, bool_decide_eq_true_2 by discriminate.
  unfold handlePodDeletion, ContainsFinalizer.
  apply rangeFinds_not_In in Hfin. rewrite Hfin. exact Hr.
Qed.

Lemma Reconcile_never_guards_deleting_pod_witness :
  reads unguardedWorld
        (snd (Reconcile noDecoder live.reconciler "default" "test-pod" unguardedWorld)).
Proof.
  apply (Reconcile_never_guards_deleting_pod noDecoder live.reconciler "default" "test-pod"
           unguardedWorld unguarded.pod 0).
  - reflexivity.
  - reflexivity.
  - simpl. intros [H|[]]. discriminate H.
Defined.

(** X15. A pod that is not Running, or none of whose containers declares a port,
    or that has a Ready condition of a status other than True, is reported
    as having no active connection without a single call to the cluster. *)
Theorem checkActiveConnections_idle_without_calls (pod : Pod) (w : World) :
  Phase (Status pod) <> PodRunning \/
  (forall container, In container (Containers (Spec pod)) -> Ports container = []) \/
  (exists condition,
      In condition (Conditions (Status pod)) /\
      CondType condition = PodReady /\ CondStatus condition <> ConditionTrue) ->
  finalizer.checkActiveConnections pod w = ((false, None), w).
Proof.
  intros Hidle. unfold finalizer.checkActiveConnections.
  destruct (String.eqb_spec (Phase (Status pod)) PodRunning) as [Hph|Hph];
    cbn [negb]; [|reflexivity].
  destruct (_ =? 0); [reflexivity|].
  destruct (existsb (fun container => 0 <? Z.of_nat (length (Ports container)))
              (Containers (Spec pod))) eqn:Hports; cbn [negb]; [|reflexivity].
  destruct (existsb _ (Conditions (Status pod))) eqn:Hcond; [reflexivity|].
  exfalso. destruct Hidle as [H|[H|H]].
  - exact (H Hph).
  - apply existsb_exists in Hports as (c & Hin & Hc).
    rewrite (H c Hin) in Hc. discriminate Hc.
  - destruct H as (cond & Hin & Hty & Hst).
    assert (existsb (fun condition =>
                       String.eqb (CondType condition) PodReady
                       && negb (String.eqb (CondStatus condition) ConditionTrue))
                    (Conditions (Status pod)) = true) as Ht.
    { apply existsb_exists. exists cond. split; [exact Hin|].
      rewrite Hty, String.eqb_refl.
      destruct (String.eqb_spec (CondStatus cond) ConditionTrue); [contradiction|].
      reflexivity. }
    congruence.
Qed.

Lemma checkActiveConnections_idle_without_calls_witness :
  finalizer.checkActiveConnections plainPod plainWorld = ((false, None), plainWorld).
Proof.
  apply checkActiveConnections_idle_without_calls.
  right. left. intros container [].
Defined.
